(** * StorageS3Distributed: the pull-based scan-coordination protocol

    A shallow embedding of [src/Storages/StorageS3Distributed.cpp]:
    the worker-side row source [StorageS3SequentialSource] (its pull
    [askAboutNextKey], the reader replacement [createOrUpdateInnerSource] and
    the row request [generate]) and both halves of
    [StorageS3Distributed::read] (worker side: initiator resolution;
    initiator side: self-resolution, query rewrite and fan-out).

    C++ code that throws or whose behaviour is undefined is embedded in a
    state-and-outcome monad; everything the file calls but does not define
    (the tree hash, the address hash, the S3 URI parser, the network) is a
    field of the class [Externals]. *)

From Stdlib Require Import String Ascii List ZArith Lia Bool Arith.
From Stdlib Require Import DecimalString.
Import ListNotations.
Open Scope string_scope.

Set Implicit Arguments.
Set Warnings "-register-all".

(* ================================================================== *)
(** * Outcomes and the state-and-outcome monad *)

Inductive ErrorCode : Type :=
| LOGICAL_ERROR
| BAD_GET
| BAD_ARGUMENTS
| NETWORK_ERROR
| SOCKET_TIMEOUT.

(** What a [throw] can carry: a [DB::Exception] (message and code) or a
    standard-library exception such as the [std::out_of_range] of
    [vector::at]. *)
Inductive Exception : Type :=
| DBException (message : string) (code : ErrorCode)
| StdException (what : string).

(** Behaviour that is no exception: the program is gone. *)
Inductive Fault : Type :=
| NullDereference
| IndexOutOfBounds
| AssertionFailed.

Inductive Result (A : Type) : Type :=
| Ok (a : A)
| Throw (e : Exception)
| Crash (f : Fault).

Arguments Ok {A} a.
Arguments Throw {A} e.
Arguments Crash {A} f.

Module Outcome.

Definition M (S A : Type) : Type := S -> Result A * S.

Definition ret {S A : Type} (a : A) : M S A := fun s => (Ok a, s).

Definition bind {S A B : Type} (m : M S A) (k : A -> M S B) : M S B :=
  fun s =>
    match m s with
    | (Ok a, s') => k a s'
    | (Throw e, s') => (Throw e, s')
    | (Crash f, s') => (Crash f, s')
    end.

Definition throw {S A : Type} (e : Exception) : M S A :=
  fun s => (Throw e, s).

Definition crash {S A : Type} (f : Fault) : M S A :=
  fun s => (Crash f, s).

(** [try { m } catch (...) { h }]: a fault is not catchable. *)
Definition try_catch {S A : Type} (m : M S A) (h : Exception -> M S A)
  : M S A :=
  fun s =>
    match m s with
    | (Throw e, s') => h e s'
    | r => r
    end.

Definition get {S : Type} : M S S := fun s => (Ok s, s).
Definition modify {S : Type} (f : S -> S) : M S unit :=
  fun s => (Ok tt, f s).

End Outcome.

Import Outcome.

Declare Scope outcome_scope.
Delimit Scope outcome_scope with outcome.
Notation "x <- m ;; k" := (bind m (fun x => k))
  (at level 61, m at next level, right associativity) : outcome_scope.
Notation "m ;;; k" := (bind m (fun _ => k))
  (at level 61, right associativity) : outcome_scope.
Open Scope outcome_scope.

(* ================================================================== *)
(** * Text: the substring relation on query texts *)

Definition Contains (text s : string) : Prop :=
  exists pre post, text = pre ++ s ++ post.

Fixpoint starts_with (s text : string) : bool :=
  match s, text with
  | EmptyString, _ => true
  | String a s', String b text' => Ascii.eqb a b && starts_with s' text'
  | String _ _, EmptyString => false
  end.

Fixpoint contains (text s : string) : bool :=
  starts_with s text ||
  match text with
  | EmptyString => false
  | String _ text' => contains text' s
  end.

(* ================================================================== *)
(** * Cluster topology *)

(** [Cluster::Address], the fields this file reads.  [port] is a [UInt16]. *)
Record Address : Type := mkAddress {
  host_name : string;
  port : Z;
  user : string;
  password : string;
  cluster : string;
  cluster_secret : string;
  is_local : bool
}.

(** A default-constructed [Cluster::Address] (Cluster.h is not under
    src/): empty strings, port 0, not local.  No statement below depends
    on what its fields hold. *)
Definition default_Address : Address :=
  mkAddress EmptyString 0 EmptyString EmptyString EmptyString EmptyString
            false.

(** [cluster->getShardsAddresses()]: per shard, its replicas. *)
Definition ShardsAddresses : Type := list (list Address).

(* ================================================================== *)
(** * Query trees *)

(** [Field], the value of a literal. *)
Inductive Field : Type :=
| FNull
| FUInt64 (n : Z)
| FString (s : string).

(** [IAST]: a node and its [children].  An [ASTFunction] keeps its argument
    list, an [ASTExpressionList], as [children.at(0)]. *)
Inductive IAST : Type :=
| ASTLiteral (value : Field)
| ASTIdentifier (name : string)
| ASTAsterisk
| ASTExpressionList (children : list IAST)
| ASTFunction (name : string) (children : list IAST).

(** [IAST::Hash], a pair of [UInt64]. *)
Definition Hash : Type := (Z * Z)%type.

Definition Hash_eqb (a b : Hash) : bool :=
  Z.eqb (fst a) (fst b) && Z.eqb (snd a) (snd b).

(** [ASTTableExpression]: one of the fields is non-null. *)
Record ASTTableExpression : Type := mkTableExpression {
  database_and_table_name : option IAST;
  table_function : option IAST;
  subquery : option IAST
}.

(** [ASTSelectQuery], as far as the rewrite and its rendering look at it:
    the select list, the table expressions that [getTableExpressions]
    returns, and the WHERE condition. *)
Record ASTSelectQuery : Type := mkSelectQuery {
  select_list : list IAST;
  tables : list ASTTableExpression;
  where_condition : option IAST
}.

Definition node_children (ast : IAST) : list IAST :=
  match ast with
  | ASTExpressionList cs => cs
  | ASTFunction _ cs => cs
  | _ => []
  end.

Definition set_children (ast : IAST) (cs : list IAST) : IAST :=
  match ast with
  | ASTExpressionList _ => ASTExpressionList cs
  | ASTFunction name _ => ASTFunction name cs
  | other => other
  end.

(** Change element [i] of a list, when there is one. *)
Fixpoint list_alter {A : Type} (f : A -> A) (l : list A) (i : nat) : list A :=
  match l, i with
  | [], _ => []
  | a :: t, O => f a :: t
  | a :: t, S j => a :: list_alter f t j
  end.

(** Replace element [i] of a list, when there is one. *)
Fixpoint list_set {A : Type} (l : list A) (i : nat) (x : A) : list A :=
  match l, i with
  | [], _ => []
  | _ :: t, O => x :: t
  | a :: t, S j => a :: list_set t j x
  end.

(* ================================================================== *)
(** * Blocks, chunks and the per-object reader *)

Definition Block : Type := list string.

(** [Chunk] (Chunk.h is not under src/): columns and a row count;
    [operator bool] is [!empty()], and [{}] is the chunk without columns
    and rows. *)
Record Chunk : Type := mkChunk {
  columns : list (list string);
  num_rows : nat
}.

Definition empty_Chunk : Chunk := mkChunk [] 0.

Definition Chunk_bool (c : Chunk) : bool :=
  negb (Nat.eqb (num_rows c) 0 &&
        match columns c with [] => true | _ => false end).

Arguments Chunk_bool : simpl never.

(** [S3::URI]: what [S3::URI(Poco::URI(s))] extracts from a key string. *)
Record S3_URI : Type := mkS3URI {
  uri_endpoint : string;
  uri_bucket : string;
  uri_key : string
}.

(** [ClientAuthentificationBuilder]. *)
Record ClientAuthentificationBuilder : Type := mkCliBuilder {
  access_key_id : string;
  secret_access_key : string;
  max_connections : Z
}.

(** The S3 client that [updateClientAndAuthSettings] stores into a
    [ClientAuthentificaiton]; opaque here. *)
Record S3Client : Type := mkS3Client { client_id : string }.

(** [StorageS3::ClientAuthentificaiton]. *)
Record ClientAuthentificaiton : Type := mkClientAuth {
  auth_uri : S3_URI;
  auth_access_key_id : string;
  auth_secret_access_key : string;
  auth_max_connections : Z;
  auth_client : option S3Client
}.

(** The part of [Context] that the file reads: the two query ids, the
    TCP port of the session, the current database of the global context,
    the initial user of the client info, and the scalars of the query
    context when there is one. *)
Record Context : Type := mkContext {
  getCurrentQueryId : string;
  getInitialQueryId : string;
  getTCPPort : Z;
  getCurrentDatabase : string;
  initial_user : string;
  getScalars : option (list string)
}.

(** [StorageS3SourceBuilder]. *)
Record StorageS3SourceBuilder : Type := mkSourceBuilder {
  need_path : bool;
  need_file : bool;
  format : string;
  name : string;
  sample_block : Block;
  context : Context;
  columns_description : list string;
  max_block_size : Z;
  compression_method : string
}.

(** Modelled from the spec: the per-object reader [StorageS3Source] is not
    under src/.  The spec has it deliver the batches of rows of one object
    and then report that it has no more rows; here it is the arguments it
    was constructed from and the batches it has still to deliver. *)
Record StorageS3Source : Type := mkS3Source {
  src_need_path : bool;
  src_need_file : bool;
  src_format : string;
  src_name : string;
  src_sample_block : Block;
  src_context : Context;
  src_columns : list string;
  src_max_block_size : Z;
  src_compression : string;
  src_client : option S3Client;
  src_bucket : string;
  src_key : string;
  src_pending : list Chunk
}.

Definition StorageS3Source_generate (r : StorageS3Source)
  : Chunk * StorageS3Source :=
  match src_pending r with
  | [] => (empty_Chunk, r)
  | c :: rest =>
      (c, mkS3Source (src_need_path r) (src_need_file r) (src_format r)
            (src_name r) (src_sample_block r) (src_context r)
            (src_columns r) (src_max_block_size r) (src_compression r)
            (src_client r) (src_bucket r) (src_key r) rest)
  end.

Arguments StorageS3Source_generate : simpl never.

(* ================================================================== *)
(** * The task pull channel as the worker sees it *)

(** [ConnectionPool], by its constructor arguments. *)
Record ConnectionPool : Type := mkPool {
  pool_max_connections : Z;
  pool_host : string;
  pool_port : Z;
  pool_default_database : string;
  pool_user : string;
  pool_password : string;
  pool_cluster : string;
  pool_cluster_secret : string
}.

(** The packet that [receivePacket] returns, as far as it is read. *)
Record Packet : Type := mkPacket {
  packet_type : Z;
  next_task : string
}.

(** What one request/reply exchange over the pool does: any of its three
    steps may throw, or a packet arrives. *)
Inductive PullOutcome : Type :=
| GetFails (e : Exception)
| SendFails (e : Exception)
| ReceiveFails (e : Exception)
| Received (p : Packet).

(** What the worker does to the outside, in order. *)
Inductive Event : Type :=
| EvGetConnection (pool : ConnectionPool)
| EvSendNextTaskRequest (query_id : string)
| EvReceivePacket (p : Packet)
| EvLogTrace (message : string)
| EvLogException (e : Exception)
| EvDumpTree (ast : IAST).

(** The outside of a worker: how many exchanges it has begun and the events
    so far, latest first. *)
Record World : Type := mkWorld {
  exchanges : nat;
  trace : list Event
}.

Definition World_init : World := mkWorld 0 [].

Inductive QueryProcessingStage : Type :=
| FetchColumns
| WithMergeableState
| Complete.

(** Everything the file calls and does not define. *)
Class Externals : Type := {
  (** [Cluster::Address::getHash] *)
  getHash : Address -> string;
  (** [IAST::getTreeHash] *)
  getTreeHash : IAST -> Hash;
  (** [S3::URI(Poco::URI(s))]: throws on a string that is no S3 URI *)
  S3_URI_of : string -> Exception + S3_URI;
  (** the client that [StorageS3::updateClientAndAuthSettings] builds *)
  make_client : Context -> S3_URI -> string -> string -> Z -> S3Client;
  (** [chooseCompressionMethod(path, hint)] *)
  chooseCompressionMethod : string -> string -> string;
  (** the batches of rows of the object [bucket]/[key] as the format
      reader delivers them *)
  object_chunks : string -> string -> list Chunk;
  (** the network: the outcome of the [n]-th exchange of a pool *)
  network : ConnectionPool -> nat -> PullOutcome;
  (** [Protocol::Server::NextTaskReply] *)
  NextTaskReply : Z;
  (** whether [assert] is compiled out *)
  NDEBUG : bool;
  (** [InterpreterSelectQuery(ast, context, options).getSampleBlock()] *)
  getSampleBlock :
    ASTSelectQuery -> Context -> QueryProcessingStage -> Exception + Block;
  (** [metadata_snapshot->check(column_names, virtuals, storage_id)] *)
  metadata_check : list string -> option Exception
}.

(* ================================================================== *)
(** * StorageS3SequentialSource *)

Record StorageS3SequentialSource : Type := mkSource {
  header : Block;
  initial_query_id : string;
  s3_source_builder : StorageS3SourceBuilder;
  cli_builder : ClientAuthentificationBuilder;
  inner : option StorageS3Source;
  connections : ConnectionPool
}.

Definition set_inner (this : StorageS3SequentialSource)
           (r : option StorageS3Source) : StorageS3SequentialSource :=
  mkSource (header this) (initial_query_id this) (s3_source_builder this)
           (cli_builder this) r (connections this).

(** The state a member function runs in: the object and the outside. *)
Definition SourceState : Type := (StorageS3SequentialSource * World)%type.

Definition record_event (ev : Event) (w : World) : World :=
  mkWorld (exchanges w) (ev :: trace w).

Definition getHeader (sample_block : Block)
           (with_path_column with_file_column : bool) : Block :=
  let sample_block :=
    if with_path_column then (sample_block ++ ["_path"])%list
    else sample_block in
  let sample_block :=
    if with_file_column then (sample_block ++ ["_file"])%list
    else sample_block in
  sample_block.

Section Source.

Context {E : Externals}.

(** [connections->get(timeouts)]: begins exchange number [exchanges]. *)
Definition pool_get : M SourceState nat :=
  fun '(this, w) =>
    let n := exchanges w in
    let w' := mkWorld (S n) (EvGetConnection (connections this) :: trace w) in
    match network (connections this) n with
    | GetFails e => (Throw e, (this, w'))
    | _ => (Ok n, (this, w'))
    end.

(** [connection->sendNextTaskRequest(query_id)] *)
Definition sendNextTaskRequest (connection : nat) (query_id : string)
  : M SourceState unit :=
  fun '(this, w) =>
    let w' := record_event (EvSendNextTaskRequest query_id) w in
    match network (connections this) connection with
    | SendFails e => (Throw e, (this, w'))
    | _ => (Ok tt, (this, w'))
    end.

(** [connection->receivePacket()] *)
Definition receivePacket (connection : nat) : M SourceState Packet :=
  fun '(this, w) =>
    match network (connections this) connection with
    | Received p => (Ok p, (this, record_event (EvReceivePacket p) w))
    | GetFails e | SendFails e | ReceiveFails e => (Throw e, (this, w))
    end.

(** [assert(packet.type = Protocol::Server::NextTaskReply)]: with
    [NDEBUG] nothing; without it the assignment, whose value is then
    tested against zero. *)
Definition assert_packet_type (packet : Packet) : M SourceState Packet :=
  if NDEBUG then ret packet
  else
    let packet := mkPacket NextTaskReply (next_task packet) in
    if Z.eqb (packet_type packet) 0 then crash AssertionFailed
    else ret packet.

Definition log (ev : Event) : M SourceState unit :=
  modify (fun '(this, w) => (this, record_event ev w)).

Definition askAboutNextKey : M SourceState string :=
  try_catch
    (connection <- pool_get ;;
     this <- get ;;
     sendNextTaskRequest connection (initial_query_id (fst this)) ;;;
     packet <- receivePacket connection ;;
     packet <- assert_packet_type packet ;;
     log (EvLogTrace ("Got new task " ++ next_task packet)) ;;;
     ret (next_task packet))
    (fun e =>
       log (EvLogException e) ;;;
       throw e).

(** [StorageS3::updateClientAndAuthSettings(context, client_auth)] *)
Definition updateClientAndAuthSettings (ctx : Context)
           (client_auth : ClientAuthentificaiton) : ClientAuthentificaiton :=
  mkClientAuth (auth_uri client_auth) (auth_access_key_id client_auth)
    (auth_secret_access_key client_auth) (auth_max_connections client_auth)
    (Some (make_client ctx (auth_uri client_auth)
             (auth_access_key_id client_auth)
             (auth_secret_access_key client_auth)
             (auth_max_connections client_auth))).

(** [std::make_unique<StorageS3Source>(...)] *)
Definition StorageS3Source_new (need_path need_file : bool)
           (format name : string) (sample_block : Block) (ctx : Context)
           (columns : list string) (max_block_size : Z)
           (compression : string) (client : option S3Client)
           (bucket key : string) : StorageS3Source :=
  mkS3Source need_path need_file format name sample_block ctx columns
             max_block_size compression client bucket key
             (object_chunks bucket key).

Definition createOrUpdateInnerSource : M SourceState bool :=
  next_string <- askAboutNextKey ;;
  if String.eqb next_string EmptyString then ret false
  else
    match S3_URI_of next_string with
    | inl e => throw e
    | inr next_uri =>
        st <- get ;;
        let this := fst st in
        let client_auth :=
          mkClientAuth next_uri
            (access_key_id (cli_builder this))
            (secret_access_key (cli_builder this))
            (max_connections (cli_builder this))
            None in
        let client_auth :=
          updateClientAndAuthSettings
            (context (s3_source_builder this)) client_auth in
        let b := s3_source_builder this in
        modify (fun '(this, w) =>
          (set_inner this
             (Some (StorageS3Source_new
                      (need_path b) (need_file b) (format b) (name b)
                      (sample_block b) (context b) (columns_description b)
                      (max_block_size b)
                      (chooseCompressionMethod
                         (uri_key (auth_uri client_auth))
                         (compression_method b))
                      (auth_client client_auth)
                      (uri_bucket (auth_uri client_auth))
                      (uri_key next_uri))),
           w)) ;;;
        ret true
    end.

(** [inner->generate()] *)
Definition inner_generate : M SourceState Chunk :=
  fun '(this, w) =>
    match inner this with
    | None => (Crash NullDereference, (this, w))
    | Some r =>
        let (chunk, r') := StorageS3Source_generate r in
        (Ok chunk, (set_inner this (Some r'), w))
    end.

Definition generate : M SourceState Chunk :=
  st <- get ;;
  match inner (fst st) with
  | None => ret empty_Chunk
  | Some _ =>
      chunk <- inner_generate ;;
      if negb (Chunk_bool chunk) then
        updated <- createOrUpdateInnerSource ;;
        if negb updated then ret empty_Chunk
        else inner_generate
      else ret chunk
  end.

(** The constructor: it builds the pool and pulls the first key. *)
Definition StorageS3SequentialSource_new (initial_query_id_ : string)
           (initiator : Address)
           (client_auth_builder_ : ClientAuthentificationBuilder)
           (s3_builder_ : StorageS3SourceBuilder)
  : M World StorageS3SequentialSource :=
  fun w =>
    let this :=
      mkSource
        (getHeader (sample_block s3_builder_) (need_path s3_builder_)
                   (need_file s3_builder_))
        initial_query_id_ s3_builder_ client_auth_builder_ None
        (mkPool 3 (host_name initiator) (port initiator)
                (getCurrentDatabase (context s3_builder_))
                (initial_user (context s3_builder_))
                (password initiator) (cluster initiator)
                (cluster_secret initiator)) in
    match createOrUpdateInnerSource (this, w) with
    | (Ok _, (this', w')) => (Ok this', w')
    | (Throw e, (_, w')) => (Throw e, w')
    | (Crash f, (_, w')) => (Crash f, w')
    end.

End Source.

(* ================================================================== *)
(** * Rendering a query as text

    [queryToString] and the formatting of the tree nodes are not under
    src/.  The definitions of this part, up to [queryToString], are its
    model: literals quoted, the arguments of a function in parentheses,
    lists separated by commas. *)

Definition join (sep : string) (parts : list string) : string :=
  match parts with
  | [] => EmptyString
  | p :: ps => fold_left (fun acc q => acc ++ sep ++ q) ps p
  end.

Definition is_quote_or_backslash (c : ascii) : bool :=
  Ascii.eqb c "'"%char || Ascii.eqb c "\"%char.

Fixpoint escape (s : string) : string :=
  match s with
  | EmptyString => EmptyString
  | String c s' =>
      if is_quote_or_backslash c then String "\"%char (String c (escape s'))
      else String c (escape s')
  end.

(** A string literal as it is written in a query: single quotes around
    the text, quotes and backslashes inside it escaped. *)
Definition quoteString (s : string) : string := "'" ++ escape s ++ "'".

Definition format_Field (value : Field) : string :=
  match value with
  | FNull => "NULL"
  | FUInt64 n => DecimalString.NilZero.string_of_int (Z.to_int n)
  | FString s => quoteString s
  end.

Fixpoint format_ast (ast : IAST) : string :=
  match ast with
  | ASTLiteral value => format_Field value
  | ASTIdentifier name => name
  | ASTAsterisk => "*"
  | ASTExpressionList children => join ", " (map format_ast children)
  | ASTFunction name children =>
      name ++ "(" ++ join ", " (map format_ast children) ++ ")"
  end.

Definition format_optional (prefix : string) (ast : option IAST)
           (suffix : string) : string :=
  match ast with
  | Some a => prefix ++ format_ast a ++ suffix
  | None => EmptyString
  end.

Definition format_table_expression (te : ASTTableExpression) : string :=
  format_optional EmptyString (database_and_table_name te) EmptyString ++
  format_optional EmptyString (table_function te) EmptyString ++
  format_optional "(" (subquery te) ")".

(** Modelled from the spec: [queryToString] (Parsers/queryToString.h) is
    not under src/.  The spec only asks that the rewritten query text shows
    the table-function invocation with its literal arguments; this is the
    plain rendering SELECT list FROM table expressions WHERE condition. *)
Definition queryToString (query : ASTSelectQuery) : string :=
  "SELECT " ++ join ", " (map format_ast (select_list query)) ++
  match tables query with
  | [] => EmptyString
  | tes => " FROM " ++ join ", " (map format_table_expression tes)
  end ++
  format_optional " WHERE " (where_condition query) EmptyString.

(* ================================================================== *)
(** * StorageS3Distributed *)

(** [StorageInMemoryMetadata], as far as [read] asks it. *)
Record StorageMetadata : Type := mkMetadata {
  getSampleBlock_of_metadata : Block;
  getColumns : list string
}.

(** [Connection], by its constructor arguments. *)
Record Connection : Type := mkConnection {
  conn_host : string;
  conn_port : Z;
  conn_default_database : string;
  conn_user : string;
  conn_password : string;
  conn_cluster : string;
  conn_cluster_secret : string
}.

(** [RemoteBlockInputStream], by its constructor arguments. *)
Record RemoteBlockInputStream : Type := mkRemoteStream {
  stream_connection : Connection;
  stream_query : string;
  stream_header : Block;
  stream_scalars : list string;
  stream_stage : QueryProcessingStage
}.

Record StorageS3Distributed : Type := mkStorage {
  getName : string;
  tree_hash : Hash;
  address_hash_or_filename : string;
  cluster_name : string;
  getShardsAddresses : ShardsAddresses;
  format_name : string;
  storage_compression_method : string;
  storage_cli_builder : ClientAuthentificationBuilder;
  storage_connections : list Connection
}.

Definition set_connections (this : StorageS3Distributed)
           (cs : list Connection) : StorageS3Distributed :=
  mkStorage (getName this) (tree_hash this) (address_hash_or_filename this)
            (cluster_name this) (getShardsAddresses this) (format_name this)
            (storage_compression_method this) (storage_cli_builder this) cs.

(** What [read] returns: the pipe of one worker source, or the union of
    the per-replica remote streams. *)
Inductive Pipe : Type :=
| Pipe_of_source (source : StorageS3SequentialSource)
| Pipe_united (pipes : list RemoteBlockInputStream).

Definition ReadState : Type := (StorageS3Distributed * World)%type.

Definition lift_result {S A : Type} (r : Result A) : M S A := fun s => (r, s).

Definition lift_sum {S A : Type} (r : Exception + A) : M S A :=
  match r with
  | inl e => throw e
  | inr a => ret a
  end.

Definition set_tables (query : ASTSelectQuery)
           (tes : list ASTTableExpression) : ASTSelectQuery :=
  mkSelectQuery (select_list query) tes (where_condition query).

Definition set_table_function (te : ASTTableExpression) (f : IAST)
  : ASTTableExpression :=
  mkTableExpression (database_and_table_name te) (Some f) (subquery te).

(** The body of the rewrite on the matching table function (lines
    316-321): [children.at(0)] throws when there is no child,
    [arguments[1]] is unchecked, [as<ASTLiteral &>] and [safeGet<String>]
    throw on another kind of node or of value (their exceptions come from
    typeid_cast and Field, outside this file; the messages are shortened). *)
Definition overwrite_bucket (table_function_ast : IAST)
           (hash_of_address : string) : Result IAST :=
  match node_children table_function_ast with
  | [] => Throw (StdException "vector::_M_range_check")
  | arguments_node :: other_children =>
      let arguments := node_children arguments_node in
      match nth_error arguments 1 with
      | None => Crash IndexOutOfBounds
      | Some (ASTLiteral (FString bucket)) =>
          Ok (set_children table_function_ast
                (set_children arguments_node
                   (list_set arguments 1
                      (ASTLiteral (FString hash_of_address)))
                 :: other_children))
      | Some (ASTLiteral _) => Throw (DBException "Bad get" BAD_GET)
      | Some _ => Throw (DBException "Bad cast" LOGICAL_ERROR)
      end
  end.

Section Read.

Context {E : Externals}.

(** Lines 249-256: the inner [break] leaves the shard, not the scan. *)
Fixpoint scan_replicas_for_initiator (replicas : list Address)
         (address_hash : string) (initiator : Address) : Address :=
  match replicas with
  | [] => initiator
  | node :: rest =>
      if String.eqb (getHash node) address_hash then node
      else scan_replicas_for_initiator rest address_hash initiator
  end.

Definition find_initiator (shards : ShardsAddresses)
           (address_hash : string) : Address :=
  fold_left
    (fun initiator replicas =>
       scan_replicas_for_initiator replicas address_hash initiator)
    shards default_Address.

(** Lines 293-300. *)
Fixpoint scan_replicas_for_self (replicas : list Address) (tcp_port : Z)
         (hash_of_address : string) : string :=
  match replicas with
  | [] => hash_of_address
  | node :: rest =>
      if is_local node && Z.eqb (port node) tcp_port then getHash node
      else scan_replicas_for_self rest tcp_port hash_of_address
  end.

Definition find_hash_of_address (shards : ShardsAddresses) (tcp_port : Z)
  : string :=
  fold_left
    (fun hash_of_address replicas =>
       scan_replicas_for_self replicas tcp_port hash_of_address)
    shards EmptyString.

(** Lines 310-314: the first table expression whose table function has
    the tree hash, with its index; [table_function] is dereferenced
    unchecked. *)
Fixpoint find_table_function (table_expressions : list ASTTableExpression)
         (tree_hash_ : Hash) : Result (option (nat * IAST)) :=
  match table_expressions with
  | [] => Ok None
  | table_expression :: rest =>
      match table_function table_expression with
      | None => Crash NullDereference
      | Some table_function_ast =>
          if Hash_eqb (getTreeHash table_function_ast) tree_hash_
          then Ok (Some (O, table_function_ast))
          else
            match find_table_function rest tree_hash_ with
            | Ok (Some (i, f)) => Ok (Some (S i, f))
            | r => r
            end
      end
  end.

(** The branch of a secondary query (lines 245-288). *)
Definition read_secondary (this : StorageS3Distributed)
           (column_names : list string)
           (metadata_snapshot : StorageMetadata) (ctx : Context)
           (max_block_size_ : Z) : M World Pipe :=
  let initiator :=
    find_initiator (getShardsAddresses this)
                   (address_hash_or_filename this) in
  let need_path_column := existsb (String.eqb "_path") column_names in
  let need_file_column := existsb (String.eqb "_file") column_names in
  let s3builder :=
    mkSourceBuilder need_path_column need_file_column (format_name this)
      (getName this) (getSampleBlock_of_metadata metadata_snapshot) ctx
      (getColumns metadata_snapshot) max_block_size_
      (storage_compression_method this) in
  source <- StorageS3SequentialSource_new (getInitialQueryId ctx) initiator
              (storage_cli_builder this) s3builder ;;
  ret (Pipe_of_source source).

Definition Connection_of_node (ctx : Context) (node : Address)
  : Connection :=
  mkConnection (host_name node) (port node) (getCurrentDatabase ctx)
               (user node) (password node) (cluster node)
               (cluster_secret node).

(** Lines 306-325: the rewritten tree and its text; the text stays empty
    when no table function has the tree hash. *)
Definition rewrite_remote_query (query : ASTSelectQuery)
           (tree_hash_ : Hash) (hash_of_address : string)
  : M ReadState (ASTSelectQuery * string) :=
  let remote_query_ast := query in
  found <- lift_result
             (find_table_function (tables remote_query_ast) tree_hash_) ;;
  match found with
  | None => ret (remote_query_ast, EmptyString)
  | Some (i, table_function_ast) =>
      modify (fun '(this, w) =>
                (this, record_event (EvDumpTree table_function_ast) w)) ;;;
      rewritten <- lift_result
                     (overwrite_bucket table_function_ast
                                       hash_of_address) ;;
      let remote_query_ast :=
        set_tables remote_query_ast
          (list_alter (fun te => set_table_function te rewritten)
                      (tables remote_query_ast) i) in
      ret (remote_query_ast, queryToString remote_query_ast)
  end.

(** The branch of the initiator (lines 291-368). *)
Definition read_initiator (column_names : list string)
           (query : ASTSelectQuery) (ctx : Context)
           (processed_stage : QueryProcessingStage) : M ReadState Pipe :=
  st <- get ;;
  let this := fst st in
  let hash_of_address :=
    find_hash_of_address (getShardsAddresses this) (getTCPPort ctx) in
  if String.eqb hash_of_address EmptyString then
    throw (DBException "Could not find outself in cluster " LOGICAL_ERROR)
  else
    rewritten <- rewrite_remote_query query (tree_hash this)
                   hash_of_address ;;
    let remote_query_ast := fst rewritten in
    let remote_query := snd rewritten in
    if String.eqb remote_query EmptyString then
      throw (DBException "No table function" LOGICAL_ERROR)
    else
      header_ <- lift_sum
                   (getSampleBlock remote_query_ast ctx processed_stage) ;;
      let scalars :=
        match getScalars ctx with Some s => s | None => [] end in
      let nodes := concat (getShardsAddresses this) in
      modify (fun '(this, w) =>
                (set_connections this
                   (storage_connections this ++
                    map (Connection_of_node ctx) nodes)%list,
                 w)) ;;;
      let pipes :=
        map (fun node =>
               mkRemoteStream (Connection_of_node ctx node) remote_query
                              header_ scalars processed_stage)
            nodes in
      match metadata_check column_names with
      | Some e => throw e
      | None => ret (Pipe_united pipes)
      end.

Definition read (column_names : list string)
           (metadata_snapshot : StorageMetadata) (query : ASTSelectQuery)
           (ctx : Context) (processed_stage : QueryProcessingStage)
           (max_block_size_ : Z) : M ReadState Pipe :=
  if negb (String.eqb (getCurrentQueryId ctx) (getInitialQueryId ctx))
  then
    fun '(this, w) =>
      let (r, w') :=
        read_secondary this column_names metadata_snapshot ctx
                       max_block_size_ w in
      (r, (this, w'))
  else read_initiator column_names query ctx processed_stage.

End Read.

(* ================================================================== *)
(** * The initiator's side of the pull channel *)

Module Initiator.

(** Modelled from the spec: the initiator's handler of a NextTaskRequest
    and the key-listing sequence it consumes are not under src/.  By the
    spec (4.2 and 5) a pull atomically takes the next key of the
    sequence or observes exhaustion, and the reply at exhaustion is the
    empty string. *)
Definition serve_pull (keys : list string) : string * list string :=
  match keys with
  | [] => (EmptyString, [])
  | key :: rest => (key, rest)
  end.

(** Pulls of concurrently running workers are served under mutual
    exclusion, hence one at a time in some order: a schedule names the
    worker whose pull is served next.  The result pairs each pull with
    its reply. *)
Fixpoint serve (schedule : list nat) (keys : list string)
  : list (nat * string) * list string :=
  match schedule with
  | [] => ([], keys)
  | worker :: later =>
      let (reply, keys') := serve_pull keys in
      let (served, final) := serve later keys' in
      ((worker, reply) :: served, final)
  end.

Definition replies (schedule : list nat) (keys : list string)
  : list string :=
  map snd (fst (serve schedule keys)).

End Initiator.

(* ================================================================== *)
(** * A small cluster to run the definitions on *)

Module Example.

Definition decimal (n : Z) : string :=
  DecimalString.NilZero.string_of_int (Z.to_int n).

(** An address hash in the style of the spec's H123. *)
Definition example_getHash (a : Address) : string :=
  "H" ++ decimal (port a).

Fixpoint checksum (s : string) : Z :=
  match s with
  | EmptyString => 0
  | String c s' => (Z.of_nat (nat_of_ascii c) + 31 * checksum s') mod 1000003
  end.

Definition example_getTreeHash (ast : IAST) : Hash :=
  (Z.of_nat (String.length (format_ast ast)), checksum (format_ast ast)).

Fixpoint split_at_slash (s : string) : string * string :=
  match s with
  | EmptyString => (EmptyString, EmptyString)
  | String c s' =>
      if Ascii.eqb c "/"%char then (EmptyString, s')
      else let (b, k) := split_at_slash s' in (String c b, k)
  end.

Definition example_S3_URI_of (s : string) : Exception + S3_URI :=
  if starts_with "s3://" s then
    let (bucket, key) := split_at_slash (substring 5 (String.length s) s) in
    inr (mkS3URI "s3.amazonaws.com" bucket key)
  else inl (DBException "Bad URI" BAD_ARGUMENTS).

Definition example_chunks (bucket key : string) : list Chunk :=
  if String.eqb key "k1" then [mkChunk [["1"; "2"]] 2]
  else if String.eqb key "k2" then [mkChunk [["3"]] 1; mkChunk [["4"]] 1]
  else [].

(** An initiator that serves [keys] in order and then the empty reply. *)
Definition serving (keys : list string) (pool : ConnectionPool) (n : nat)
  : PullOutcome :=
  Received (mkPacket 13 (nth n keys EmptyString)).

Definition externals (net : ConnectionPool -> nat -> PullOutcome)
           (ndebug : bool) : Externals :=
  {| getHash := example_getHash;
     getTreeHash := example_getTreeHash;
     S3_URI_of := example_S3_URI_of;
     make_client := fun _ u a _ _ => mkS3Client (uri_endpoint u ++ "/" ++ a);
     chooseCompressionMethod := fun _ hint => hint;
     object_chunks := example_chunks;
     network := net;
     NextTaskReply := 13;
     NDEBUG := ndebug;
     getSampleBlock := fun q _ _ => inr (map format_ast (select_list q));
     metadata_check := fun _ => None |}.

Definition node (host : string) (p : Z) (local : bool) : Address :=
  mkAddress host p "default" "pw" "cluster" "secret" local.

Definition ctx_initiator : Context :=
  mkContext "q1" "q1" 123 "db" "alice" None.

Definition ctx_worker : Context :=
  mkContext "q2" "q1" 9000 "db" "alice" None.

Definition s3Distributed (bucket : string) : IAST :=
  ASTFunction "s3Distributed"
    [ASTExpressionList
       [ASTLiteral (FString "cluster"); ASTLiteral (FString bucket);
        ASTLiteral (FString "CSV")]].

Definition from_function (f : IAST) : ASTTableExpression :=
  mkTableExpression None (Some f) None.

Definition from_table (t : string) : ASTTableExpression :=
  mkTableExpression (Some (ASTIdentifier t)) None None.

Definition storage (shards : ShardsAddresses) (f : IAST)
           (address_hash : string) : StorageS3Distributed :=
  mkStorage "S3Distributed" (example_getTreeHash f) address_hash "cluster"
            shards "CSV" "auto" (mkCliBuilder "AKIA" "SECRET" 10) [].

Definition metadata : StorageMetadata := mkMetadata ["a"] ["a"].

End Example.

(* ================================================================== *)
(** * Vocabulary of the statements *)

Definition failed {A : Type} (r : Result A) : Prop :=
  match r with
  | Ok _ => False
  | _ => True
  end.

(** The "bucket" slot of a table-function invocation: the second element
    of the argument list [children.at(0)]. *)
Definition bucket_slot (table_function_ast : IAST) : option IAST :=
  match node_children table_function_ast with
  | [] => None
  | arguments_node :: _ => nth_error (node_children arguments_node) 1
  end.

(** Argument [j] of a table-function invocation. *)
Definition argument_slot (j : nat) (table_function_ast : IAST)
  : option IAST :=
  match node_children table_function_ast with
  | [] => None
  | arguments_node :: _ => nth_error (node_children arguments_node) j
  end.

(** A node without its children: its kind and, for a function, its name. *)
Definition node_head (ast : IAST) : IAST := set_children ast [].

Definition NoTableFunction : Exception :=
  DBException "No table function" LOGICAL_ERROR.

Definition CouldNotFindOurself : Exception :=
  DBException "Could not find outself in cluster " LOGICAL_ERROR.

Section Vocabulary.

Context {E : Externals}.

(** The [assert] of [askAboutNextKey] does not stop the program: it is
    compiled out, or the value it assigns is not zero. *)
Definition assert_passes : Prop :=
  NDEBUG = true \/ NextTaskReply <> 0%Z.

(** The packet as [askAboutNextKey] holds it after its [assert]. *)
Definition asserted (p : Packet) : Packet :=
  if NDEBUG then p else mkPacket NextTaskReply (next_task p).

(** The outside after one completed exchange that received [p]. *)
Definition after_pull (this : StorageS3SequentialSource) (w : World)
           (p : Packet) : World :=
  mkWorld (S (exchanges w))
          (EvLogTrace ("Got new task " ++ next_task p)
           :: EvReceivePacket p
           :: EvSendNextTaskRequest (initial_query_id this)
           :: EvGetConnection (connections this)
           :: trace w).

(** The outside after an exchange that failed with [e] at one of its
    three steps. *)
Definition after_failed_pull (this : StorageS3SequentialSource) (w : World)
           (outcome : PullOutcome) (e : Exception) : World :=
  mkWorld (S (exchanges w))
          (EvLogException e
           :: match outcome with
              | GetFails _ => [EvGetConnection (connections this)]
              | _ => [EvSendNextTaskRequest (initial_query_id this);
                      EvGetConnection (connections this)]
              end ++ trace w)%list.

(** The addresses of the topology whose hash is [address_hash]. *)
Definition matching_addresses (shards : ShardsAddresses)
           (address_hash : string) : list Address :=
  filter (fun node => String.eqb (getHash node) address_hash)
         (concat shards).

(** The addresses of the topology that are local and listen on
    [tcp_port]. *)
Definition self_addresses (shards : ShardsAddresses) (tcp_port : Z)
  : list Address :=
  filter (fun node => is_local node && Z.eqb (port node) tcp_port)
         (concat shards).

(** The per-object reader that [createOrUpdateInnerSource] builds for
    the key with URI [next_uri]. *)
Definition fresh_reader (this : StorageS3SequentialSource)
           (next_uri : S3_URI) : StorageS3Source :=
  let b := s3_source_builder this in
  let client_auth :=
    updateClientAndAuthSettings (context b)
      (mkClientAuth next_uri (access_key_id (cli_builder this))
                    (secret_access_key (cli_builder this))
                    (max_connections (cli_builder this)) None) in
  StorageS3Source_new (need_path b) (need_file b) (format b) (name b)
    (sample_block b) (context b) (columns_description b)
    (max_block_size b)
    (chooseCompressionMethod (uri_key next_uri) (compression_method b))
    (auth_client client_auth) (uri_bucket next_uri) (uri_key next_uri).

End Vocabulary.


Module ExampleSource.

Import Example.

Definition builder : StorageS3SourceBuilder :=
  mkSourceBuilder false false "CSV" "S3Distributed" ["a"] ctx_worker ["a"]
                  100 "auto".

Definition pool : ConnectionPool :=
  mkPool 3 "b" 123 "db" "alice" "pw" "cluster" "secret".

Definition source (reader : option StorageS3Source)
  : StorageS3SequentialSource :=
  mkSource ["a"] "q1" builder (mkCliBuilder "AKIA" "SECRET" 10) reader pool.

(** A reader of the object k1 that has delivered everything. *)
Definition drained_reader : StorageS3Source :=
  mkS3Source false false "CSV" "S3Distributed" ["a"] ctx_worker ["a"] 100
             "auto" None "bucket" "k1" [].

(** A network on which every exchange has the same outcome. *)
Definition always (outcome : PullOutcome) (pool : ConnectionPool)
           (n : nat) : PullOutcome := outcome.

Definition timeout : Exception := DBException "Timeout" SOCKET_TIMEOUT.

End ExampleSource.


Module ExampleNetworks.

Import Example ExampleSource.

(** A reply of type 1 (not NextTaskReply) that carries a key. *)
Definition mistyped : Packet := mkPacket 1 "s3://bucket/k1".

(** The termination reply. *)
Definition no_more : Packet := mkPacket 13 EmptyString.

(** A debug build on a network that answers with the mistyped packet. *)
Definition E_mistyped : Externals :=
  externals (always (Received mistyped)) false.

(** A network whose replies never arrive. *)
Definition E_timeout : Externals :=
  externals (always (ReceiveFails timeout)) true.

(** An initiator with no keys at all. *)
Definition E_no_keys : Externals := externals (serving []) true.

(** An initiator with the one key k1. *)
Definition E_one_key : Externals :=
  externals (serving ["s3://bucket/k1"]) true.

End ExampleNetworks.


Section ReadVocabulary.

Context {E : Externals}.

(** Every table expression carries a table function, and none of them
    has the tree hash. *)
Definition no_matching_table_function
           (table_expressions : list ASTTableExpression)
           (tree_hash_ : Hash) : Prop :=
  Forall (fun te => exists f, table_function te = Some f /\
                              getTreeHash f <> tree_hash_)
         table_expressions.

(** The query tree after the table function of table expression [i] has
    been replaced. *)
Definition rewritten_query (query : ASTSelectQuery) (i : nat)
           (rewritten : IAST) : ASTSelectQuery :=
  set_tables query
    (list_alter (fun te => set_table_function te rewritten)
                (tables query) i).

(** The per-replica streams that the initiator builds for a query text. *)
Definition fan_out (this : StorageS3Distributed) (ctx : Context)
           (processed_stage : QueryProcessingStage) (remote_query : string)
           (header_ : Block) : list RemoteBlockInputStream :=
  map (fun node =>
         mkRemoteStream (Connection_of_node ctx node) remote_query header_
           match getScalars ctx with Some s => s | None => [] end
           processed_stage)
      (concat (getShardsAddresses this)).

(** The storage after the fan-out has added one connection per node. *)
Definition with_fan_out_connections (this : StorageS3Distributed)
           (ctx : Context) : StorageS3Distributed :=
  set_connections this
    (storage_connections this ++
     map (Connection_of_node ctx) (concat (getShardsAddresses this)))%list.

(** The pool that a worker source opens to [initiator]. *)
Definition pool_to (initiator : Address) (ctx : Context) : ConnectionPool :=
  mkPool 3 (host_name initiator) (port initiator) (getCurrentDatabase ctx)
         (initial_user ctx) (password initiator) (cluster initiator)
         (cluster_secret initiator).

End ReadVocabulary.


Module ExampleTopologies.

Import Example ExampleNetworks.

(** Two nodes on port 123, hence of the same example hash H123. *)
Definition ambiguous_shards : ShardsAddresses :=
  [[node "a" 123 false]; [node "b" 123 true]].

(** One node of hash H123. *)
Definition plain_shards : ShardsAddresses :=
  [[node "a" 9000 false]; [node "b" 123 true]].

Definition query_of (tes : list ASTTableExpression) : ASTSelectQuery :=
  mkSelectQuery [ASTAsterisk] tes None.

Definition plain_query : ASTSelectQuery :=
  query_of [from_function (s3Distributed "real-bucket")].

(** The original bucket string also stands in the select list. *)
Definition echo_query : ASTSelectQuery :=
  mkSelectQuery [ASTLiteral (FString "real-bucket"); ASTAsterisk]
                [from_function (s3Distributed "real-bucket")] None.

End ExampleTopologies.


(* ================================================================== *)
(** * Driving a source *)

Definition set_pending (r : StorageS3Source) (cs : list Chunk)
  : StorageS3Source :=
  mkS3Source (src_need_path r) (src_need_file r) (src_format r) (src_name r)
             (src_sample_block r) (src_context r) (src_columns r)
             (src_max_block_size r) (src_compression r) (src_client r)
             (src_bucket r) (src_key r) cs.

Section Driving.

Context {E : Externals}.

(** [n] row requests one after the other on the same source, as the
    pipeline that owns the source makes them. *)
Fixpoint row_requests (n : nat) (st : SourceState)
  : list (Result Chunk) * SourceState :=
  match n with
  | O => ([], st)
  | S n' =>
      let (r, st') := generate st in
      let (rs, st'') := row_requests n' st' in
      (r :: rs, st'')
  end.

(** The batches of the object that a key names; none when the key is no
    S3 URI. *)
Definition batches_of_key (key : string) : list Chunk :=
  match S3_URI_of key with
  | inr u => object_chunks (uri_bucket u) (uri_key u)
  | inl _ => []
  end.

(** A key that [createOrUpdateInnerSource] can turn into a reader with
    something to deliver: not empty, an S3 URI, and naming an object
    whose batches are all non-empty chunks, at least one. *)
Definition readable_key (key : string) : Prop :=
  key <> EmptyString /\
  (exists u, S3_URI_of key = inr u) /\
  batches_of_key key <> [] /\
  Forall (fun c => Chunk_bool c = true) (batches_of_key key).

End Driving.


Section Serving.

Context {E : Externals}.

(** From exchange number [start] on, the network hands [keys] over the
    pool, one per exchange and in order, and then the empty reply. *)
Definition serves (pool : ConnectionPool) (start : nat)
           (keys : list string) : Prop :=
  (forall i, i < length keys ->
     exists p, network pool (start + i) = Received p /\
               next_task p = nth i keys EmptyString) /\
  (exists p, network pool (start + length keys) = Received p /\
             next_task p = EmptyString).

End Serving.

Module ExampleRuns.

Import Example.

(** A debug build whose NextTaskReply is 13, on an initiator with the
    keys k1 and k2. *)
Definition E_two_keys : Externals :=
  externals (serving ["s3://bucket/k1"; "s3://bucket/k2"]) false.

(** An initiator whose first key names an object without batches. *)
Definition E_empty_object : Externals :=
  externals (serving ["s3://bucket/k0"; "s3://bucket/k1"]) true.

End ExampleRuns.


Module ExampleExtras.

Import Example ExampleSource.

(** Two shards, each with a local node on port 123. *)
Definition twin_shards : ShardsAddresses :=
  [[node "a" 123 true]; [node "b" 123 true]].

(** A reader of the object k2 with both batches still to deliver. *)
Definition full_reader : StorageS3Source :=
  mkS3Source false false "CSV" "S3Distributed" ["a"] ctx_worker ["a"] 100
             "auto" None "bucket" "k2" (example_chunks "bucket" "k2").

Definition uri_k0 : S3_URI := mkS3URI "s3.amazonaws.com" "bucket" "k0".

End ExampleExtras.


Module ExampleEdges.

Import Example ExampleNetworks.

(** An initiator that hands out a key that is no S3 URI. *)
Definition E_bad_key : Externals := externals (serving ["not-a-uri"]) true.

(** An initiator with the one key k2. *)
Definition E_k2 : Externals := externals (serving ["s3://bucket/k2"]) true.

Definition no_such_column : Exception :=
  DBException "There is no column" BAD_ARGUMENTS.

(** The externals of [E_one_key] with a column check that rejects the
    column name zz. *)
Definition E_checked : Externals :=
  {| getHash := @getHash E_one_key;
     getTreeHash := @getTreeHash E_one_key;
     S3_URI_of := @S3_URI_of E_one_key;
     make_client := @make_client E_one_key;
     chooseCompressionMethod := @chooseCompressionMethod E_one_key;
     object_chunks := @object_chunks E_one_key;
     network := @network E_one_key;
     NextTaskReply := @NextTaskReply E_one_key;
     NDEBUG := @NDEBUG E_one_key;
     getSampleBlock := @getSampleBlock E_one_key;
     metadata_check :=
       fun cols =>
         if existsb (String.eqb "zz") cols then Some no_such_column
         else None |}.

End ExampleEdges.


(* ================================================================== *)
(** * Facts about text *)

Lemma Contains_refl (s : string) : Contains s s.
Proof.
  exists EmptyString, EmptyString. simpl.
  induction s as [|c s IH]; simpl; [reflexivity | now rewrite <- IH].
Qed.

Lemma append_assoc (a b c : string) : (a ++ b) ++ c = a ++ (b ++ c).
Proof.
  induction a as [|x a IH]; simpl; [reflexivity | now rewrite IH].
Qed.

Lemma append_nil_r (a : string) : a ++ EmptyString = a.
Proof.
  induction a as [|x a IH]; simpl; [reflexivity | now rewrite IH].
Qed.

Lemma Contains_trans (a b c : string) :
  Contains a b -> Contains b c -> Contains a c.
Proof.
  intros (p1 & q1 & ->) (p2 & q2 & ->).
  exists (p1 ++ p2), (q2 ++ q1).
  now rewrite !append_assoc.
Qed.

Lemma Contains_append_l (a b s : string) :
  Contains a s -> Contains (a ++ b) s.
Proof.
  intros (p & q & ->). exists p, (q ++ b). now rewrite !append_assoc.
Qed.

Lemma Contains_append_r (a b s : string) :
  Contains b s -> Contains (a ++ b) s.
Proof.
  intros (p & q & ->). exists (a ++ p), q. now rewrite !append_assoc.
Qed.

Lemma starts_with_append (s post : string) : starts_with s (s ++ post) = true.
Proof.
  induction s as [|c s IH]; simpl; [reflexivity|].
  now rewrite Ascii.eqb_refl, IH.
Qed.

Lemma starts_with_inv (s text : string) :
  starts_with s text = true -> exists post, text = s ++ post.
Proof.
  revert text. induction s as [|c s IH]; intros text H.
  - now exists text.
  - destruct text as [|d text]; simpl in H; [discriminate|].
    apply andb_true_iff in H as [Hc Hs].
    apply Ascii.eqb_eq in Hc as ->.
    destruct (IH _ Hs) as [post ->]. now exists post.
Qed.

Lemma starts_with_contains (text s : string) :
  starts_with s text = true -> contains text s = true.
Proof.
  intros H. destruct text; simpl; rewrite H; reflexivity.
Qed.

(** The boolean test decides the relation. *)
Lemma contains_Contains (text s : string) :
  contains text s = true <-> Contains text s.
Proof.
  split.
  - induction text as [|c text IH]; simpl; intros H.
    + rewrite orb_false_r in H. destruct (starts_with_inv _ _ H) as [post ->].
      now exists EmptyString, post.
    + apply orb_true_iff in H as [H|H].
      * destruct (starts_with_inv _ _ H) as [post Hp].
        exists EmptyString, post. exact Hp.
      * destruct (IH H) as (p & q & ->). now exists (String c p), q.
  - intros (p & q & ->). induction p as [|c p IH].
    + apply starts_with_contains. simpl. apply starts_with_append.
    + simpl. simpl in IH. rewrite IH. apply orb_true_r.
Qed.

Lemma fold_left_join_prefix (sep : string) (ps : list string) (acc : string) :
  exists post,
    fold_left (fun a q => a ++ sep ++ q) ps acc = acc ++ post.
Proof.
  revert acc. induction ps as [|p ps IH]; intros acc; simpl.
  - exists EmptyString. now rewrite append_nil_r.
  - destruct (IH (acc ++ sep ++ p)) as [post ->].
    exists ((sep ++ p) ++ post). now rewrite !append_assoc.
Qed.

Lemma fold_left_join_Contains (sep : string) (ps : list string)
      (acc x : string) :
  Contains acc x \/ In x ps ->
  Contains (fold_left (fun a q => a ++ sep ++ q) ps acc) x.
Proof.
  revert acc. induction ps as [|p ps IH]; intros acc [H|H]; simpl.
  - exact H.
  - destruct H.
  - apply IH. left. now apply Contains_append_l.
  - apply IH. destruct H as [->|H]; [left | now right].
    apply Contains_append_r, Contains_append_r, Contains_refl.
Qed.

(** A joined text shows each of its parts. *)
Lemma join_Contains (sep : string) (parts : list string) (x : string) :
  In x parts -> Contains (join sep parts) x.
Proof.
  destruct parts as [|p ps]; simpl; [intros []|].
  intros [->|H]; apply fold_left_join_Contains.
  - left. apply Contains_refl.
  - now right.
Qed.

Lemma queryToString_not_empty (query : ASTSelectQuery) :
  String.eqb (queryToString query) EmptyString = false.
Proof. reflexivity. Qed.

(* ================================================================== *)
(** * The pull: [askAboutNextKey] *)

Section PullFacts.

Context {E : Externals}.

Ltac run_pull H :=
  unfold askAboutNextKey, try_catch, bind, pool_get, sendNextTaskRequest,
    receivePacket, get, log, modify, ret, throw, crash; simpl;
  rewrite ?H; simpl.

Lemma assert_packet_type_passes (p : Packet) (st : SourceState) :
  assert_passes ->
  assert_packet_type p st = (Ok (asserted p), st).
Proof.
  unfold assert_passes, assert_packet_type, asserted.
  intros [Hn|Hz].
  - now rewrite Hn.
  - destruct NDEBUG; [reflexivity|]. simpl.
    destruct (Z.eqb_spec NextTaskReply 0); [contradiction | reflexivity].
Qed.

Lemma next_task_asserted (p : Packet) : next_task (asserted p) = next_task p.
Proof. unfold asserted. now destruct NDEBUG. Qed.

(** A completed exchange hands back the packet's [next_task]. *)
Lemma askAboutNextKey_received (this : StorageS3SequentialSource)
      (w : World) (p : Packet) :
  network (connections this) (exchanges w) = Received p ->
  assert_passes ->
  askAboutNextKey (this, w) = (Ok (next_task p), (this, after_pull this w p)).
Proof.
  intros H Ha. run_pull H.
  rewrite (assert_packet_type_passes p _ Ha). simpl.
  now rewrite next_task_asserted.
Qed.

Lemma askAboutNextKey_get_fails (this : StorageS3SequentialSource)
      (w : World) (e : Exception) :
  network (connections this) (exchanges w) = GetFails e ->
  askAboutNextKey (this, w)
  = (Throw e, (this, after_failed_pull this w (GetFails e) e)).
Proof. intros H. now run_pull H. Qed.

Lemma askAboutNextKey_send_fails (this : StorageS3SequentialSource)
      (w : World) (e : Exception) :
  network (connections this) (exchanges w) = SendFails e ->
  askAboutNextKey (this, w)
  = (Throw e, (this, after_failed_pull this w (SendFails e) e)).
Proof. intros H. now run_pull H. Qed.

Lemma askAboutNextKey_receive_fails (this : StorageS3SequentialSource)
      (w : World) (e : Exception) :
  network (connections this) (exchanges w) = ReceiveFails e ->
  askAboutNextKey (this, w)
  = (Throw e, (this, after_failed_pull this w (ReceiveFails e) e)).
Proof. intros H. now run_pull H. Qed.

(** Every call begins exactly one exchange and leaves the object alone. *)
Lemma askAboutNextKey_one_exchange (this : StorageS3SequentialSource)
      (w : World) :
  fst (snd (askAboutNextKey (this, w))) = this /\
  exchanges (snd (snd (askAboutNextKey (this, w)))) = S (exchanges w).
Proof.
  destruct (network (connections this) (exchanges w)) as [e|e|e|p] eqn:H.
  - rewrite (askAboutNextKey_get_fails _ _ H). now split.
  - rewrite (askAboutNextKey_send_fails _ _ H). now split.
  - rewrite (askAboutNextKey_receive_fails _ _ H). now split.
  - run_pull H. unfold assert_packet_type.
    destruct NDEBUG; simpl; [now split|].
    destruct (Z.eqb NextTaskReply 0); simpl; now split.
Qed.

(** A key, empty or not, is only ever returned from a received packet. *)
Lemma askAboutNextKey_Ok_inv (this : StorageS3SequentialSource) (w : World)
      (key : string) :
  fst (askAboutNextKey (this, w)) = Ok key ->
  exists p, network (connections this) (exchanges w) = Received p /\
            next_task p = key.
Proof.
  destruct (network (connections this) (exchanges w)) as [e|e|e|p] eqn:H.
  - rewrite (askAboutNextKey_get_fails _ _ H). discriminate.
  - rewrite (askAboutNextKey_send_fails _ _ H). discriminate.
  - rewrite (askAboutNextKey_receive_fails _ _ H). discriminate.
  - run_pull H. unfold assert_packet_type.
    destruct NDEBUG; simpl.
    + intros [= <-]. now exists p.
    + destruct (Z.eqb NextTaskReply 0); simpl; [discriminate|].
      intros [= <-]. now exists p.
Qed.

End PullFacts.

(* ================================================================== *)
(** * The worker source: [createOrUpdateInnerSource] and [generate] *)

Section SourceFacts.

Context {E : Externals}.

Lemma set_inner_same (this : StorageS3SequentialSource) :
  set_inner this (inner this) = this.
Proof. now destruct this. Qed.

Lemma createOrUpdateInnerSource_throws (st st' : SourceState)
      (e : Exception) :
  askAboutNextKey st = (Throw e, st') ->
  createOrUpdateInnerSource st = (Throw e, st').
Proof.
  intros H. unfold createOrUpdateInnerSource, bind. now rewrite H.
Qed.

Lemma createOrUpdateInnerSource_empty (this : StorageS3SequentialSource)
      (w : World) (p : Packet) :
  network (connections this) (exchanges w) = Received p ->
  next_task p = EmptyString ->
  assert_passes ->
  createOrUpdateInnerSource (this, w)
  = (Ok false, (this, after_pull this w p)).
Proof.
  intros H He Ha. unfold createOrUpdateInnerSource, bind.
  rewrite (askAboutNextKey_received _ _ H Ha), He. reflexivity.
Qed.

Lemma createOrUpdateInnerSource_key (this : StorageS3SequentialSource)
      (w : World) (p : Packet) (next_uri : S3_URI) :
  network (connections this) (exchanges w) = Received p ->
  next_task p <> EmptyString ->
  S3_URI_of (next_task p) = inr next_uri ->
  assert_passes ->
  createOrUpdateInnerSource (this, w)
  = (Ok true,
     (set_inner this (Some (fresh_reader this next_uri)),
      after_pull this w p)).
Proof.
  intros H Hk Hu Ha. unfold createOrUpdateInnerSource, bind.
  rewrite (askAboutNextKey_received _ _ H Ha).
  apply String.eqb_neq in Hk. rewrite Hk, Hu. reflexivity.
Qed.

Lemma createOrUpdateInnerSource_bad_uri (this : StorageS3SequentialSource)
      (w : World) (p : Packet) (e : Exception) :
  network (connections this) (exchanges w) = Received p ->
  next_task p <> EmptyString ->
  S3_URI_of (next_task p) = inl e ->
  assert_passes ->
  createOrUpdateInnerSource (this, w)
  = (Throw e, (this, after_pull this w p)).
Proof.
  intros H Hk Hu Ha. unfold createOrUpdateInnerSource, bind.
  rewrite (askAboutNextKey_received _ _ H Ha).
  apply String.eqb_neq in Hk. rewrite Hk, Hu. reflexivity.
Qed.

(** It begins exactly one exchange, whatever comes of it. *)
Lemma createOrUpdateInnerSource_one_exchange
      (this : StorageS3SequentialSource) (w : World) :
  exchanges (snd (snd (createOrUpdateInnerSource (this, w))))
  = S (exchanges w).
Proof.
  destruct (askAboutNextKey_one_exchange this w) as [_ Hx].
  unfold createOrUpdateInnerSource, bind.
  destruct (askAboutNextKey (this, w)) as [[key|e|f] [this' w']];
    simpl in *; try exact Hx.
  destruct (String.eqb key EmptyString); simpl; [exact Hx|].
  destruct (S3_URI_of key); simpl; exact Hx.
Qed.

(** Without a reader [generate] touches nothing. *)
Lemma generate_without_reader (this : StorageS3SequentialSource)
      (w : World) :
  inner this = None ->
  generate (this, w) = (Ok empty_Chunk, (this, w)).
Proof.
  intros H. unfold generate, bind, get. simpl. now rewrite H.
Qed.

(** With a reader that delivers a batch, the batch is handed on. *)
Lemma generate_from_reader (this : StorageS3SequentialSource) (w : World)
      (r : StorageS3Source) :
  inner this = Some r ->
  Chunk_bool (fst (StorageS3Source_generate r)) = true ->
  generate (this, w)
  = (Ok (fst (StorageS3Source_generate r)),
     (set_inner this (Some (snd (StorageS3Source_generate r))), w)).
Proof.
  intros H Hc. unfold generate, bind, get, inner_generate. simpl.
  rewrite H. simpl. rewrite H.
  destruct (StorageS3Source_generate r) as [c r'].
  simpl in *. now rewrite Hc.
Qed.

(** With a reader that has nothing more, [generate] goes on as
    [createOrUpdateInnerSource] decides. *)
Lemma generate_reader_exhausted (this : StorageS3SequentialSource)
      (w : World) (r : StorageS3Source) :
  inner this = Some r ->
  Chunk_bool (fst (StorageS3Source_generate r)) = false ->
  generate (this, w)
  = match createOrUpdateInnerSource
            (set_inner this (Some (snd (StorageS3Source_generate r))), w)
    with
    | (Ok true, st') => inner_generate st'
    | (Ok false, st') => (Ok empty_Chunk, st')
    | (Throw e, st') => (Throw e, st')
    | (Crash f, st') => (Crash f, st')
    end.
Proof.
  intros H Hc. unfold generate, bind, get, inner_generate. simpl.
  rewrite H. simpl. rewrite H.
  destruct (StorageS3Source_generate r) as [c r'].
  simpl in *. rewrite Hc. simpl.
  destruct (createOrUpdateInnerSource _) as [[[|]|e|f] st']; reflexivity.
Qed.

Lemma StorageS3Source_generate_drained (r : StorageS3Source) :
  src_pending r = [] ->
  StorageS3Source_generate r = (empty_Chunk, r).
Proof. intros H. unfold StorageS3Source_generate. now rewrite H. Qed.

(** A reader that is drained stays in place, and every row request on it
    begins one more exchange. *)
Lemma generate_drained_reader_pulls (this : StorageS3SequentialSource)
      (w : World) (r : StorageS3Source) :
  inner this = Some r ->
  src_pending r = [] ->
  exchanges (snd (snd (generate (this, w)))) = S (exchanges w).
Proof.
  intros H Hd.
  rewrite (generate_reader_exhausted this w H);
    rewrite (StorageS3Source_generate_drained r Hd); [|reflexivity].
  simpl. rewrite <- H, set_inner_same.
  pose proof (createOrUpdateInnerSource_one_exchange this w) as Hx.
  destruct (createOrUpdateInnerSource (this, w))
    as [[[|]|e|f] [this' w']]; simpl in *; try exact Hx.
  unfold inner_generate. destruct (inner this'); simpl; [|exact Hx].
  destruct (StorageS3Source_generate s). exact Hx.
Qed.

End SourceFacts.

(* ================================================================== *)
(** * Claims about the worker source *)

Section SourceClaims.

Context {E : Externals}.

(** C10.  The pull never validates the type of the reply: for every
    packet received, whatever its type field, [askAboutNextKey] returns
    the packet's [next_task].  The [assert] is an assignment: compiled
    out with NDEBUG, and otherwise it overwrites the type with
    NextTaskReply and goes on. *)
Theorem askAboutNextKey_ignores_packet_type
        (this : StorageS3SequentialSource) (w : World) (p : Packet) :
  network (connections this) (exchanges w) = Received p ->
  assert_passes ->
  askAboutNextKey (this, w)
  = (Ok (next_task p), (this, after_pull this w p)) /\
  assert_packet_type p (this, w)
  = (Ok (if NDEBUG then p else mkPacket NextTaskReply (next_task p)),
     (this, w)).
Proof.
  intros H Ha. split.
  - now apply askAboutNextKey_received.
  - now rewrite assert_packet_type_passes.
Qed.

(** C8.  A transport failure at any of the three steps of a pull
    (connection acquisition, request send, reply receive) is logged and
    thrown on: [askAboutNextKey], [createOrUpdateInnerSource] and a
    [generate] that has to pull all end in that exception, never in the
    empty key or the empty chunk. *)
Theorem transport_failure_is_rethrown
        (this : StorageS3SequentialSource) (w : World) (e : Exception) :
  network (connections this) (exchanges w) = GetFails e \/
  network (connections this) (exchanges w) = SendFails e \/
  network (connections this) (exchanges w) = ReceiveFails e ->
  exists w',
    askAboutNextKey (this, w) = (Throw e, (this, w')) /\
    hd_error (trace w') = Some (EvLogException e) /\
    createOrUpdateInnerSource (this, w) = (Throw e, (this, w')) /\
    (forall r,
        inner this = Some r -> src_pending r = [] ->
        generate (this, w) = (Throw e, (this, w'))).
Proof.
  intros H.
  assert (exists w', askAboutNextKey (this, w) = (Throw e, (this, w')) /\
                     hd_error (trace w') = Some (EvLogException e))
    as (w' & Hask & Hlog).
  { destruct H as [H|[H|H]].
    - eexists. rewrite (askAboutNextKey_get_fails _ _ H). now split.
    - eexists. rewrite (askAboutNextKey_send_fails _ _ H). now split.
    - eexists. rewrite (askAboutNextKey_receive_fails _ _ H). now split. }
  exists w'. repeat split; try assumption.
  - now apply createOrUpdateInnerSource_throws.
  - intros r Hr Hd.
    rewrite (generate_reader_exhausted this w Hr);
      rewrite (StorageS3Source_generate_drained r Hd); [|reflexivity].
    simpl. rewrite <- Hr, set_inner_same.
    now rewrite (createOrUpdateInnerSource_throws _ Hask).
Qed.

(** C7.  An empty reply is the end of work and no error:
    [createOrUpdateInnerSource] returns false and leaves the object as
    it was (no reader is built), a [generate] whose pull got the empty
    reply yields the empty chunk, and a source whose first pull got the
    empty reply (no keys at all) is constructed without a reader and
    yields the empty chunk on every row request. *)
Theorem empty_reply_is_termination
        (this : StorageS3SequentialSource) (w : World) (p : Packet) :
  network (connections this) (exchanges w) = Received p ->
  next_task p = EmptyString ->
  assert_passes ->
  createOrUpdateInnerSource (this, w)
  = (Ok false, (this, after_pull this w p)) /\
  (forall r,
      inner this = Some r -> src_pending r = [] ->
      generate (this, w) = (Ok empty_Chunk, (this, after_pull this w p))) /\
  (forall query_id initiator builder,
      connections this
      = mkPool 3 (host_name initiator) (port initiator)
               (getCurrentDatabase (context builder))
               (initial_user (context builder)) (password initiator)
               (cluster initiator) (cluster_secret initiator) ->
      exists source w',
        StorageS3SequentialSource_new query_id initiator (cli_builder this)
                                      builder w
        = (Ok source, w') /\
        inner source = None /\
        forall w'', generate (source, w'') = (Ok empty_Chunk, (source, w''))).
Proof.
  intros H He Ha. split; [|split].
  - now apply createOrUpdateInnerSource_empty.
  - intros r Hr Hd.
    rewrite (generate_reader_exhausted this w Hr);
      rewrite (StorageS3Source_generate_drained r Hd); [|reflexivity].
    simpl. rewrite <- Hr, set_inner_same.
    now rewrite (createOrUpdateInnerSource_empty _ _ H He Ha).
  - intros query_id initiator builder Hpool.
    unfold StorageS3SequentialSource_new.
    match goal with
    | |- context [createOrUpdateInnerSource (?s, w)] => set (this0 := s)
    end.
    assert (Hnet : network (connections this0) (exchanges w) = Received p)
      by (subst this0; simpl; now rewrite <- Hpool).
    rewrite (createOrUpdateInnerSource_empty this0 w Hnet He Ha).
    exists this0, (after_pull this0 w p). split; [reflexivity|].
    split; [reflexivity|].
    intros w''. now apply generate_without_reader.
Qed.


End SourceClaims.

(* ================================================================== *)
(** * The worker claims on the example cluster *)

Module SourceWitnesses.

Import Example ExampleSource ExampleNetworks.

Lemma askAboutNextKey_ignores_packet_type_witness :
  packet_type mistyped <> @NextTaskReply E_mistyped /\
  @askAboutNextKey E_mistyped (source None, World_init)
  = (Ok "s3://bucket/k1",
     (source None, after_pull (source None) World_init mistyped))
  /\
  @assert_packet_type E_mistyped mistyped (source None, World_init)
  = (Ok (mkPacket 13 "s3://bucket/k1"), (source None, World_init)).
Proof.
  split; [discriminate|].
  apply (@askAboutNextKey_ignores_packet_type E_mistyped (source None)
           World_init mistyped).
  - reflexivity.
  - right. discriminate.
Defined.

Lemma transport_failure_is_rethrown_witness :
  exists w',
    @askAboutNextKey E_timeout (source (Some drained_reader), World_init)
    = (Throw timeout, (source (Some drained_reader), w')) /\
    hd_error (trace w') = Some (EvLogException timeout) /\
    @createOrUpdateInnerSource E_timeout
      (source (Some drained_reader), World_init)
    = (Throw timeout, (source (Some drained_reader), w')) /\
    (forall r,
        inner (source (Some drained_reader)) = Some r ->
        src_pending r = [] ->
        @generate E_timeout (source (Some drained_reader), World_init)
        = (Throw timeout, (source (Some drained_reader), w'))).
Proof.
  apply (@transport_failure_is_rethrown E_timeout
           (source (Some drained_reader)) World_init timeout).
  right. right. reflexivity.
Defined.

Lemma empty_reply_is_termination_witness :
  @createOrUpdateInnerSource E_no_keys (source None, World_init)
  = (Ok false,
     (source None, after_pull (source None) World_init no_more)).
Proof.
  apply (@empty_reply_is_termination E_no_keys (source None) World_init
           no_more).
  - reflexivity.
  - reflexivity.
  - left. reflexivity.
Defined.


End SourceWitnesses.

(* ================================================================== *)
(** * Row requests after exhaustion *)

Module AfterExhaustion.

Import Example ExampleSource ExampleNetworks.

(** C3.  The run of a worker whose initiator holds the one key k1: the
    constructor pulls k1 (exchange 0), the first row request delivers
    the rows of k1, the second finds the reader drained, pulls
    (exchange 1), gets the empty reply and yields the empty chunk.  The
    reader stays in place, so the third row request, after exhaustion,
    yields the empty chunk only after one more pull (exchange 2): the
    source does contact the channel again. *)
Theorem generate_pulls_again_after_empty_reply :
  exists source w1 rows this2 w2 w3 w4,
    @StorageS3SequentialSource_new E_one_key "q1" (node "b" 123 true)
      (mkCliBuilder "AKIA" "SECRET" 10) builder World_init
    = (Ok source, w1) /\
    exchanges w1 = 1 /\
    @generate E_one_key (source, w1) = (Ok rows, (this2, w2)) /\
    Chunk_bool rows = true /\
    exchanges w2 = 1 /\
    @network E_one_key (connections this2) 1 = Received no_more /\
    @generate E_one_key (this2, w2) = (Ok empty_Chunk, (this2, w3)) /\
    exchanges w3 = 2 /\
    @generate E_one_key (this2, w3) = (Ok empty_Chunk, (this2, w4)) /\
    exchanges w4 = 3 /\
    hd_error (trace w4) = Some (EvLogTrace "Got new task ").
Proof.
  do 7 eexists.
  split; [vm_compute; reflexivity|].
  split; [reflexivity|].
  split; [vm_compute; reflexivity|].
  split; [reflexivity|].
  split; [reflexivity|].
  split; [reflexivity|].
  split; [vm_compute; reflexivity|].
  split; [reflexivity|].
  split; [vm_compute; reflexivity|].
  split; reflexivity.
Qed.

End AfterExhaustion.

(* ================================================================== *)
(** * Scanning the topology *)

Section TopologyFacts.

Context {E : Externals}.

(** Both scans of [read] have this shape: per shard the first node that
    passes the test replaces what was found before. *)
Lemma scan_shards_result {A : Type} (test : Address -> bool)
      (pick : Address -> A) (scan : list Address -> A -> A) :
  (forall replicas found,
      scan replicas found
      = match find test replicas with
        | Some node => pick node
        | None => found
        end) ->
  forall (shards : ShardsAddresses) (found : A),
    (filter test (concat shards) = [] /\
     fold_left (fun acc replicas => scan replicas acc) shards found = found)
    \/
    (exists node,
        In node (filter test (concat shards)) /\
        fold_left (fun acc replicas => scan replicas acc) shards found
        = pick node).
Proof.
  intros Hscan shards. induction shards as [|replicas shards IH];
    intros found; simpl.
  - left. now split.
  - rewrite filter_app, Hscan.
    destruct (find test replicas) as [node|] eqn:Hf.
    + destruct (IH (pick node)) as [[Hnil ->]|(n & Hin & ->)].
      * right. exists node. split; [|reflexivity].
        apply in_or_app. left. apply filter_In.
        apply find_some in Hf. exact Hf.
      * right. exists n. split; [|reflexivity].
        apply in_or_app. now right.
    + assert (filter test replicas = []) as ->.
      { clear -Hf. induction replicas as [|a l IHl]; [reflexivity|].
        simpl in *. destruct (test a); [discriminate | now apply IHl]. }
      simpl. apply IH.
Qed.

Lemma scan_replicas_for_initiator_find (address_hash : string)
      (replicas : list Address) (initiator : Address) :
  scan_replicas_for_initiator replicas address_hash initiator
  = match find (fun node => String.eqb (getHash node) address_hash)
               replicas with
    | Some node => node
    | None => initiator
    end.
Proof.
  induction replicas as [|node rest IH]; simpl; [reflexivity|].
  destruct (String.eqb (getHash node) address_hash); [reflexivity | exact IH].
Qed.

Lemma scan_replicas_for_self_find (tcp_port : Z) (replicas : list Address)
      (hash_of_address : string) :
  scan_replicas_for_self replicas tcp_port hash_of_address
  = match find (fun node => is_local node && Z.eqb (port node) tcp_port)
               replicas with
    | Some node => getHash node
    | None => hash_of_address
    end.
Proof.
  induction replicas as [|node rest IH]; simpl; [reflexivity|].
  destruct (is_local node && Z.eqb (port node) tcp_port);
    [reflexivity | exact IH].
Qed.

(** The initiator that the worker resolves: the default address when no
    hash matches, one of the matching addresses otherwise. *)
Lemma find_initiator_result (shards : ShardsAddresses)
      (address_hash : string) :
  (matching_addresses shards address_hash = [] /\
   find_initiator shards address_hash = default_Address) \/
  In (find_initiator shards address_hash)
     (matching_addresses shards address_hash).
Proof.
  unfold find_initiator, matching_addresses.
  destruct (scan_shards_result
              (fun node => String.eqb (getHash node) address_hash)
              (fun node => node)
              (fun replicas found =>
                 scan_replicas_for_initiator replicas address_hash found)
              (scan_replicas_for_initiator_find address_hash)
              shards default_Address) as [H|(node & Hin & Heq)].
  - now left.
  - right. now rewrite Heq.
Qed.

(** The hash that the initiator finds for itself: empty when no node is
    local on the port, the hash of such a node otherwise. *)
Lemma find_hash_of_address_result (shards : ShardsAddresses) (tcp_port : Z) :
  (self_addresses shards tcp_port = [] /\
   find_hash_of_address shards tcp_port = EmptyString) \/
  (exists node,
      In node (self_addresses shards tcp_port) /\
      find_hash_of_address shards tcp_port = getHash node).
Proof.
  unfold find_hash_of_address, self_addresses.
  apply (scan_shards_result
           (fun node => is_local node && Z.eqb (port node) tcp_port)
           getHash
           (fun replicas found =>
              scan_replicas_for_self replicas tcp_port found)
           (scan_replicas_for_self_find tcp_port)).
Qed.

End TopologyFacts.

(* ================================================================== *)
(** * Worker side of [read]: resolving the initiator *)

Section ResolutionClaims.

Context {E : Externals}.

Lemma new_source_proceeds (query_id : string) (initiator : Address)
      (cli : ClientAuthentificationBuilder)
      (builder : StorageS3SourceBuilder) (w : World) (p : Packet) :
  network (pool_to initiator (context builder)) (exchanges w) = Received p ->
  assert_passes ->
  next_task p = EmptyString \/
  (exists u, S3_URI_of (next_task p) = inr u) ->
  exists source w',
    StorageS3SequentialSource_new query_id initiator cli builder w
    = (Ok source, w') /\
    connections source = pool_to initiator (context builder).
Proof.
  intros Hnet Ha Hp. unfold StorageS3SequentialSource_new.
  match goal with
  | |- context [createOrUpdateInnerSource (?s, w)] => set (this0 := s)
  end.
  assert (Hn : network (connections this0) (exchanges w) = Received p)
    by exact Hnet.
  destruct (string_dec (next_task p) EmptyString) as [He|Hne].
  - rewrite (createOrUpdateInnerSource_empty this0 w Hn He Ha).
    now exists this0, (after_pull this0 w p).
  - destruct Hp as [He|[u Hu]]; [contradiction|].
    rewrite (createOrUpdateInnerSource_key this0 w Hn Hne Hu Ha).
    now exists (set_inner this0 (Some (fresh_reader this0 u))),
               (after_pull this0 w p).
Qed.

(** C2, as the code has it.  The worker's resolution of the initiator is
    a scan that raises nothing.  When exactly one address of the topology
    has the received hash, that address is the initiator.  When several
    have it, one of them is, and the worker goes on with it: as soon as
    the first pull over the pool to that address is answered, [read]
    returns the pipe of a source bound to it. *)
Theorem find_initiator_takes_a_matching_address
        (this : StorageS3Distributed) (column_names : list string)
        (metadata_snapshot : StorageMetadata) (ctx : Context)
        (max_block_size_ : Z) (w : World) :
  (forall a,
      matching_addresses (getShardsAddresses this)
                         (address_hash_or_filename this) = [a] ->
      find_initiator (getShardsAddresses this)
                     (address_hash_or_filename this) = a) /\
  (matching_addresses (getShardsAddresses this)
                      (address_hash_or_filename this) <> [] ->
   In (find_initiator (getShardsAddresses this)
                      (address_hash_or_filename this))
      (matching_addresses (getShardsAddresses this)
                          (address_hash_or_filename this))) /\
  (forall p,
      network (pool_to (find_initiator (getShardsAddresses this)
                                       (address_hash_or_filename this))
                       ctx)
              (exchanges w) = Received p ->
      assert_passes ->
      next_task p = EmptyString \/
      (exists u, S3_URI_of (next_task p) = inr u) ->
      exists source w',
        read_secondary this column_names metadata_snapshot ctx
                       max_block_size_ w
        = (Ok (Pipe_of_source source), w') /\
        connections source
        = pool_to (find_initiator (getShardsAddresses this)
                                  (address_hash_or_filename this))
                  ctx).
Proof.
  split; [|split].
  - intros a Ha.
    destruct (find_initiator_result (getShardsAddresses this)
                (address_hash_or_filename this)) as [[Hnil _]|Hin].
    + rewrite Ha in Hnil. discriminate.
    + rewrite Ha in Hin. destruct Hin as [<-|[]]. reflexivity.
  - intros Hne.
    destruct (find_initiator_result (getShardsAddresses this)
                (address_hash_or_filename this)) as [[Hnil _]|Hin];
      [contradiction | exact Hin].
  - intros p Hnet Ha Hp. unfold read_secondary, bind.
    match goal with
    | |- context [StorageS3SequentialSource_new ?q ?i ?c ?b w] =>
        destruct (@new_source_proceeds q i c b w p Hnet Ha Hp)
          as (source & w' & Hnew & Hpool)
    end.
    rewrite Hnew. now exists source, w'.
Qed.

End ResolutionClaims.

Module ResolutionExamples.

Import Example ExampleNetworks ExampleTopologies.

Lemma find_initiator_takes_a_matching_address_witness :
  @find_initiator E_one_key plain_shards "H123" = node "b" 123 true.
Proof.
  apply (@find_initiator_takes_a_matching_address E_one_key
           (storage plain_shards (s3Distributed "real-bucket") "H123")
           ["a"] metadata ctx_worker 100 World_init).
  reflexivity.
Defined.

(** C2 as stated fails: two addresses of the topology have the received
    hash, and the worker's [read] returns a pipe all the same. *)
Lemma ambiguous_initiator_is_not_fatal :
  length (@matching_addresses E_one_key ambiguous_shards "H123") = 2 /\
  ~ failed
      (fst (@read E_one_key ["a"] metadata plain_query ctx_worker Complete
              100
              (storage ambiguous_shards (s3Distributed "real-bucket")
                       "H123",
               World_init))).
Proof.
  split; [reflexivity|]. vm_compute. intros [].
Qed.

End ResolutionExamples.

(* ================================================================== *)
(** * Initiator side of [read]: locating and rewriting the table function *)

Lemma Hash_eqb_eq (a b : Hash) : Hash_eqb a b = true <-> a = b.
Proof.
  destruct a as [a1 a2], b as [b1 b2]. unfold Hash_eqb. simpl.
  rewrite andb_true_iff, !Z.eqb_eq. split.
  - now intros [-> ->].
  - now intros [= -> ->].
Qed.

Lemma Hash_eqb_neq (a b : Hash) : Hash_eqb a b = false <-> a <> b.
Proof.
  rewrite <- Hash_eqb_eq. destruct (Hash_eqb a b); split;
    congruence.
Qed.

Lemma list_alter_app {A : Type} (f : A -> A) (before after : list A) (x : A) :
  list_alter f (before ++ x :: after) (length before)
  = (before ++ f x :: after)%list.
Proof.
  induction before as [|b before IH]; simpl; [reflexivity | now rewrite IH].
Qed.

Lemma nth_error_list_set {A : Type} (l : list A) (i : nat) (x y : A) :
  nth_error l i = Some y -> nth_error (list_set l i x) i = Some x.
Proof.
  revert i. induction l as [|a l IH]; intros [|i]; simpl; try discriminate.
  - reflexivity.
  - apply IH.
Qed.

Lemma nth_error_list_set_other {A : Type} (l : list A) (i j : nat) (x : A) :
  i <> j -> nth_error (list_set l i x) j = nth_error l j.
Proof.
  revert i j. induction l as [|a l IH]; intros [|i] [|j] H; simpl;
    try reflexivity; try congruence.
  apply IH. congruence.
Qed.

Section RewriteFacts.

Context {E : Externals}.

(** The scan stops at the first table function with the tree hash. *)
Lemma find_table_function_found
      (before after : list ASTTableExpression) (te : ASTTableExpression)
      (f : IAST) (tree_hash_ : Hash) :
  no_matching_table_function before tree_hash_ ->
  table_function te = Some f ->
  getTreeHash f = tree_hash_ ->
  find_table_function (before ++ te :: after) tree_hash_
  = Ok (Some (length before, f)).
Proof.
  intros Hb Hf Hh. induction Hb as [|t before (g & Hg & Hne) _ IH]; simpl.
  - rewrite Hf. apply Hash_eqb_eq in Hh. now rewrite Hh.
  - rewrite Hg. apply Hash_eqb_neq in Hne. now rewrite Hne, IH.
Qed.

Lemma find_table_function_none (tes : list ASTTableExpression)
      (tree_hash_ : Hash) :
  find_table_function tes tree_hash_ = Ok None <->
  no_matching_table_function tes tree_hash_.
Proof.
  unfold no_matching_table_function. split.
  - induction tes as [|te tes IH]; simpl; intros H; [constructor|].
    destruct (table_function te) as [f|] eqn:Hf; [|discriminate].
    destruct (Hash_eqb (getTreeHash f) tree_hash_) eqn:Hh; [discriminate|].
    destruct (find_table_function tes tree_hash_) as [[[i g]|]|e|c];
      try discriminate.
    constructor; [|now apply IH].
    exists f. split; [exact Hf | now apply Hash_eqb_neq].
  - induction 1 as [|te tes (f & Hf & Hne) _ IH]; simpl; [reflexivity|].
    rewrite Hf. apply Hash_eqb_neq in Hne. now rewrite Hne, IH.
Qed.

(** What a found table function is: the first with the tree hash, after
    table expressions that all carry another table function. *)
Lemma find_table_function_some (tes : list ASTTableExpression)
      (tree_hash_ : Hash) (i : nat) (f : IAST) :
  find_table_function tes tree_hash_ = Ok (Some (i, f)) ->
  exists before te after,
    tes = (before ++ te :: after)%list /\ length before = i /\
    table_function te = Some f /\ getTreeHash f = tree_hash_ /\
    no_matching_table_function before tree_hash_.
Proof.
  revert i. induction tes as [|te tes IH]; simpl; intros i H;
    [discriminate|].
  destruct (table_function te) as [g|] eqn:Hg; [|discriminate].
  destruct (Hash_eqb (getTreeHash g) tree_hash_) eqn:Hh.
  - injection H as <- <-. exists [], te, tes.
    repeat split; try assumption.
    + now apply Hash_eqb_eq.
    + constructor.
  - destruct (find_table_function tes tree_hash_) as [[[j h]|]|e|c];
      try discriminate.
    injection H as <- <-.
    destruct (IH j eq_refl) as (before & t & after & -> & <- & Ht & Hth & Hb).
    exists (te :: before), t, after. repeat split; try assumption.
    constructor; [|exact Hb].
    exists g. split; [exact Hg | now apply Hash_eqb_neq].
Qed.

Lemma find_table_function_never_throws (tes : list ASTTableExpression)
      (tree_hash_ : Hash) (e : Exception) :
  find_table_function tes tree_hash_ <> Throw e.
Proof.
  induction tes as [|te tes IH]; simpl; [discriminate|].
  destruct (table_function te) as [g|]; [|discriminate].
  destruct (Hash_eqb (getTreeHash g) tree_hash_); [discriminate|].
  destruct (find_table_function tes tree_hash_) as [[[j h]|]|e'|c];
    try discriminate. exact IH.
Qed.

End RewriteFacts.

(** What the rewrite of a table function needs and what it leaves: a
    string literal in the bucket slot before, the hash in it after. *)
Lemma overwrite_bucket_Ok (f rewritten : IAST) (hash_of_address : string) :
  overwrite_bucket f hash_of_address = Ok rewritten ->
  (exists bucket, bucket_slot f = Some (ASTLiteral (FString bucket))) /\
  bucket_slot rewritten = Some (ASTLiteral (FString hash_of_address)).
Proof.
  unfold overwrite_bucket, bucket_slot.
  destruct (node_children f) as [|args others] eqn:Hc; [discriminate|].
  destruct (nth_error (node_children args) 1) as [[[| |bucket]| | | |]|] eqn:Hn;
    try discriminate.
  intros [= <-]. split; [now exists bucket|].
  assert (Hf : node_children
                 (set_children f
                    (set_children args
                       (list_set (node_children args) 1
                          (ASTLiteral (FString hash_of_address)))
                     :: others))
               = set_children args
                   (list_set (node_children args) 1
                      (ASTLiteral (FString hash_of_address)))
                 :: others)
    by (destruct f; simpl in *; try discriminate; reflexivity).
  rewrite Hf.
  assert (Ha : node_children
                 (set_children args
                    (list_set (node_children args) 1
                       (ASTLiteral (FString hash_of_address))))
               = list_set (node_children args) 1
                   (ASTLiteral (FString hash_of_address)))
    by (destruct args; simpl in *; try discriminate; reflexivity).
  rewrite Ha. now apply (nth_error_list_set _ _ _ Hn).
Qed.

Lemma overwrite_bucket_string (f : IAST) (bucket hash_of_address : string) :
  bucket_slot f = Some (ASTLiteral (FString bucket)) ->
  exists rewritten, overwrite_bucket f hash_of_address = Ok rewritten.
Proof.
  unfold overwrite_bucket, bucket_slot.
  destruct (node_children f) as [|args others]; [discriminate|].
  intros ->. eexists. reflexivity.
Qed.

Lemma overwrite_bucket_other_arguments (f rewritten : IAST)
      (hash_of_address : string) (j : nat) :
  overwrite_bucket f hash_of_address = Ok rewritten ->
  j <> 1 ->
  argument_slot j rewritten = argument_slot j f.
Proof.
  unfold overwrite_bucket, argument_slot.
  destruct (node_children f) as [|args others] eqn:Hc; [discriminate|].
  destruct (nth_error (node_children args) 1) as [[[| |bucket]| | | |]|] eqn:Hn;
    try discriminate.
  intros [= <-] Hj.
  destruct f; simpl in *; try discriminate;
    destruct args; simpl in *; try discriminate;
    apply nth_error_list_set_other; congruence.
Qed.

(* ================================================================== *)
(** * The rewritten text *)

Lemma format_ast_shows_child (a c : IAST) :
  In c (node_children a) -> Contains (format_ast a) (format_ast c).
Proof.
  destruct a as [v|n| |cs|n cs]; simpl; try contradiction; intros H.
  - apply join_Contains. now apply in_map.
  - apply Contains_append_r.
    apply (Contains_append_r "(").
    apply Contains_append_l, join_Contains. now apply in_map.
Qed.

Lemma format_ast_shows_argument (j : nat) (f lit : IAST) :
  argument_slot j f = Some lit -> Contains (format_ast f) (format_ast lit).
Proof.
  unfold argument_slot.
  destruct (node_children f) as [|args others] eqn:Hc; [discriminate|].
  intros Hn. apply nth_error_In in Hn.
  apply Contains_trans with (format_ast args).
  - apply format_ast_shows_child. rewrite Hc. now left.
  - now apply format_ast_shows_child.
Qed.

Lemma format_table_expression_shows_function (te : ASTTableExpression)
      (f : IAST) :
  table_function te = Some f ->
  Contains (format_table_expression te) (format_ast f).
Proof.
  intros H. unfold format_table_expression. rewrite H.
  apply Contains_append_r, Contains_append_l.
  unfold format_optional.
  apply Contains_append_r, Contains_append_l, Contains_refl.
Qed.

Lemma queryToString_shows_table_expression (query : ASTSelectQuery)
      (te : ASTTableExpression) :
  In te (tables query) ->
  Contains (queryToString query) (format_table_expression te).
Proof.
  intros H. unfold queryToString.
  destruct (tables query) as [|t ts] eqn:Ht; [contradiction|].
  apply (Contains_append_r "SELECT ").
  apply Contains_append_r, Contains_append_l.
  apply (Contains_append_r " FROM ").
  apply join_Contains. now apply in_map.
Qed.

(** The text of a query shows, quoted, every string literal that is an
    argument of one of its table functions. *)
Lemma queryToString_shows_argument (query : ASTSelectQuery)
      (te : ASTTableExpression) (f : IAST) (j : nat) (s : string) :
  In te (tables query) ->
  table_function te = Some f ->
  argument_slot j f = Some (ASTLiteral (FString s)) ->
  Contains (queryToString query) (quoteString s).
Proof.
  intros Hin Hf Hs.
  apply Contains_trans with (format_table_expression te);
    [now apply queryToString_shows_table_expression|].
  apply Contains_trans with (format_ast f);
    [now apply format_table_expression_shows_function|].
  apply (format_ast_shows_argument j f Hs).
Qed.

(* ================================================================== *)
(** * Initiator side of [read]: the outcomes *)

Section InitiatorOutcomes.

Context {E : Externals}.

(** [read_initiator], outcome by outcome. *)
Lemma read_initiator_cases (column_names : list string)
      (query : ASTSelectQuery) (ctx : Context)
      (processed_stage : QueryProcessingStage)
      (this : StorageS3Distributed) (w : World) :
  read_initiator column_names query ctx processed_stage (this, w)
  = let hash_of_address :=
      find_hash_of_address (getShardsAddresses this) (getTCPPort ctx) in
    if String.eqb hash_of_address EmptyString
    then (Throw CouldNotFindOurself, (this, w))
    else
      match find_table_function (tables query) (tree_hash this) with
      | Crash c => (Crash c, (this, w))
      | Throw e => (Throw e, (this, w))
      | Ok None => (Throw NoTableFunction, (this, w))
      | Ok (Some (i, f)) =>
          let w1 := record_event (EvDumpTree f) w in
          match overwrite_bucket f hash_of_address with
          | Crash c => (Crash c, (this, w1))
          | Throw e => (Throw e, (this, w1))
          | Ok rewritten =>
              let remote_query_ast := rewritten_query query i rewritten in
              match getSampleBlock remote_query_ast ctx processed_stage with
              | inl e => (Throw e, (this, w1))
              | inr header_ =>
                  match metadata_check column_names with
                  | Some e =>
                      (Throw e, (with_fan_out_connections this ctx, w1))
                  | None =>
                      (Ok (Pipe_united
                             (fan_out this ctx processed_stage
                                      (queryToString remote_query_ast)
                                      header_)),
                       (with_fan_out_connections this ctx, w1))
                  end
              end
          end
      end.
Proof.
  unfold read_initiator, bind, get. simpl.
  destruct (String.eqb _ EmptyString); [reflexivity|].
  unfold rewrite_remote_query, bind, lift_result.
  destruct (find_table_function (tables query) (tree_hash this))
    as [[[i f]|]|e|c]; try reflexivity.
  unfold modify. simpl.
  destruct (overwrite_bucket f _) as [rewritten|e|c]; try reflexivity.
  simpl. unfold lift_sum, rewritten_query.
  destruct (getSampleBlock _ ctx processed_stage) as [e|header_];
    [reflexivity|].
  simpl. destruct (metadata_check column_names); reflexivity.
Qed.

Lemma read_on_initiator (column_names : list string)
      (metadata_snapshot : StorageMetadata) (query : ASTSelectQuery)
      (ctx : Context) (processed_stage : QueryProcessingStage)
      (max_block_size_ : Z) (st : ReadState) :
  getCurrentQueryId ctx = getInitialQueryId ctx ->
  read column_names metadata_snapshot query ctx processed_stage
       max_block_size_ st
  = read_initiator column_names query ctx processed_stage st.
Proof.
  intros H. unfold read. now rewrite H, String.eqb_refl.
Qed.

Lemma record_event_changes (ev : Event) (w : World) : record_event ev w <> w.
Proof.
  destruct w as [n t]. unfold record_event. simpl. intros [= H].
  apply (f_equal (@length Event)) in H. simpl in H. lia.
Qed.

End InitiatorOutcomes.

(* ================================================================== *)
(** * Claims about the initiator side of [read] *)

Lemma node_head_set_children (ast : IAST) (cs : list IAST) :
  node_head (set_children ast cs) = node_head ast.
Proof. now destruct ast. Qed.

Lemma node_children_set_children (ast : IAST) (c : IAST) (cs cs' : list IAST) :
  node_children ast = c :: cs ->
  node_children (set_children ast cs') = cs'.
Proof. destruct ast; simpl; intros H; try discriminate; reflexivity. Qed.

(** What the rewrite of a table function leaves as it was: the node
    itself (kind and name), its children behind the argument list, and
    the argument-list node (kind and name). *)
Lemma overwrite_bucket_frame (f rewritten : IAST) (hash_of_address : string) :
  overwrite_bucket f hash_of_address = Ok rewritten ->
  node_head rewritten = node_head f /\
  tl (node_children rewritten) = tl (node_children f) /\
  option_map node_head (hd_error (node_children rewritten))
  = option_map node_head (hd_error (node_children f)).
Proof.
  unfold overwrite_bucket.
  destruct (node_children f) as [|args others] eqn:Hc; [discriminate|].
  destruct (nth_error (node_children args) 1) as [[[| |bucket]| | | |]|] eqn:Hn;
    try discriminate.
  intros [= <-]. rewrite node_head_set_children.
  rewrite (node_children_set_children f _ Hc). cbn [tl hd_error option_map].
  now rewrite node_head_set_children.
Qed.

(** A node is its head and its children. *)
Lemma node_head_children (a b : IAST) :
  node_head a = node_head b -> node_children a = node_children b -> a = b.
Proof.
  unfold node_head.
  destruct a, b; simpl; intros Hh Hc; try discriminate; congruence.
Qed.

(** The frame together with the arguments determines the rewritten
    table function: two trees that agree with [f] on the head, on the
    children behind the argument list, on the argument-list node and on
    every argument but the second, and that hold the same second
    argument, are the same tree. *)
Lemma rewritten_table_function_unique (f r r' : IAST) (slot : IAST) :
  (forall t,
      t = r \/ t = r' ->
      bucket_slot t = Some slot /\
      (forall j, j <> 1 -> argument_slot j t = argument_slot j f) /\
      node_head t = node_head f /\
      tl (node_children t) = tl (node_children f) /\
      option_map node_head (hd_error (node_children t))
      = option_map node_head (hd_error (node_children f))) ->
  r = r'.
Proof.
  intros H.
  destruct (H r (or_introl eq_refl)) as (Hs & Ha & Hh & Ht & Hg).
  destruct (H r' (or_intror eq_refl)) as (Hs' & Ha' & Hh' & Ht' & Hg').
  apply node_head_children; [congruence|].
  unfold bucket_slot, argument_slot in *.
  destruct (node_children r) as [|a cs]; [discriminate|].
  destruct (node_children r') as [|a' cs']; [discriminate|].
  cbn [hd_error tl option_map] in *. f_equal; [|congruence].
  destruct (node_children f) as [|g gs]; cbn [hd_error tl option_map] in *;
    [discriminate|].
  apply node_head_children; [congruence|].
  apply nth_error_ext. intros j.
  destruct (Nat.eq_dec j 1) as [->|Hj]; [congruence|].
  now rewrite Ha, Ha'.
Qed.

Section InitiatorClaims.

Context {E : Externals}.

Variables (column_names : list string)
          (metadata_snapshot : StorageMetadata)
          (query : ASTSelectQuery) (ctx : Context)
          (processed_stage : QueryProcessingStage) (max_block_size_ : Z)
          (this : StorageS3Distributed) (w : World).

Local Abbreviation hash_of_address :=
  (find_hash_of_address (getShardsAddresses this) (getTCPPort ctx)).

(** On the initiator, for a query all of whose table expressions carry a
    table function of which none has the precomputed tree hash, [read]
    throws a LOGICAL_ERROR and leaves the storage and the outside as they
    were.  The exception of line 328, thrown before anything was
    touched, is the outcome exactly when self-resolution had found a hash
    and the query is such a query. *)
Lemma no_matching_table_function_is_fatal :
  getCurrentQueryId ctx = getInitialQueryId ctx ->
  (no_matching_table_function (tables query) (tree_hash this) ->
   exists message,
     read column_names metadata_snapshot query ctx processed_stage
          max_block_size_ (this, w)
     = (Throw (DBException message LOGICAL_ERROR), (this, w))) /\
  (read column_names metadata_snapshot query ctx processed_stage
        max_block_size_ (this, w)
   = (Throw NoTableFunction, (this, w))
   <->
   hash_of_address <> EmptyString /\
   no_matching_table_function (tables query) (tree_hash this)).
Proof.
  intros Hinit. rewrite read_on_initiator by exact Hinit.
  rewrite read_initiator_cases. cbv zeta.
  destruct (String.eqb_spec hash_of_address EmptyString) as [He|Hne].
  - split.
    + intros _. eexists. reflexivity.
    + split; [discriminate | now intros [H _]].
  - split.
    + intros Hno. apply find_table_function_none in Hno. rewrite Hno.
      eexists. reflexivity.
    + split.
      * intros H. split; [exact Hne|].
        apply find_table_function_none.
        destruct (find_table_function (tables query) (tree_hash this))
          as [[[i f]|]|e|c] eqn:Hf; try reflexivity; try discriminate.
        -- exfalso.
           destruct (overwrite_bucket f hash_of_address) as [r|e|c];
             [destruct (getSampleBlock _ ctx processed_stage);
              [|destruct (metadata_check column_names)]| |];
             try discriminate; injection H; intros;
             match goal with
             | Hw : record_event _ w = w |- _ =>
                 now apply record_event_changes in Hw
             end.
        -- exfalso. now apply find_table_function_never_throws in Hf.
      * intros [_ Hno]. apply find_table_function_none in Hno.
        now rewrite Hno.
Qed.

(** With a hash found, [read] does not end in the exception of line 304
    with nothing touched: it has gone past self-resolution. *)
Lemma read_goes_past_self_resolution :
  getCurrentQueryId ctx = getInitialQueryId ctx ->
  hash_of_address <> EmptyString ->
  read column_names metadata_snapshot query ctx processed_stage
       max_block_size_ (this, w)
  <> (Throw CouldNotFindOurself, (this, w)).
Proof.
  intros Hinit Hne. rewrite read_on_initiator by exact Hinit.
  rewrite read_initiator_cases. cbv zeta.
  apply String.eqb_neq in Hne. rewrite Hne.
  destruct (find_table_function (tables query) (tree_hash this))
    as [[[i f]|]|e|c] eqn:Hf; try discriminate.
  - destruct (overwrite_bucket f hash_of_address) as [r|e|c];
      [destruct (getSampleBlock _ ctx processed_stage);
       [|destruct (metadata_check column_names)]| |];
      try discriminate; intros H; injection H; intros;
      match goal with
      | Hw : record_event _ w = w |- _ =>
          now apply record_event_changes in Hw
      end.
  - now apply find_table_function_never_throws in Hf.
Qed.

(** What [read] returns once everything went through. *)
Lemma read_initiator_returns (i : nat) (f rewritten : IAST)
      (header_ : Block) :
  getCurrentQueryId ctx = getInitialQueryId ctx ->
  hash_of_address <> EmptyString ->
  find_table_function (tables query) (tree_hash this) = Ok (Some (i, f)) ->
  overwrite_bucket f hash_of_address = Ok rewritten ->
  getSampleBlock (rewritten_query query i rewritten) ctx processed_stage
  = inr header_ ->
  metadata_check column_names = None ->
  read column_names metadata_snapshot query ctx processed_stage
       max_block_size_ (this, w)
  = (Ok (Pipe_united
           (fan_out this ctx processed_stage
              (queryToString (rewritten_query query i rewritten))
              header_)),
     (with_fan_out_connections this ctx, record_event (EvDumpTree f) w)).
Proof.
  intros Hinit Hne Hfind Ho Hheader Hcheck.
  rewrite read_on_initiator by exact Hinit.
  rewrite read_initiator_cases. cbv zeta.
  apply String.eqb_neq in Hne.
  now rewrite Hne, Hfind, Ho, Hheader, Hcheck.
Qed.

(** C5.  On the initiator, when no node of the topology is both local
    and on the session's TCP port, [read] throws before anything is
    touched: the storage has no new connection and the outside no
    event.  When there is such a node, the hash that self-resolution
    finds is the hash of one of them, and that hash is the one embedded:
    with the hash found (not the empty string) [read] does not end in
    the exception of self-resolution; wherever the scan then finds the
    table function and the rewrite, the header analysis and the column
    check go through, [read] returns the streams that carry the text of
    the query whose bucket slot holds that hash; and it never returns
    anything else. *)
Theorem self_resolution_fails_fast :
  getCurrentQueryId ctx = getInitialQueryId ctx ->
  ((forall node,
       In node (concat (getShardsAddresses this)) ->
       ~ (is_local node = true /\ port node = getTCPPort ctx)) ->
   read column_names metadata_snapshot query ctx processed_stage
        max_block_size_ (this, w)
   = (Throw CouldNotFindOurself, (this, w))) /\
  ((exists node,
       In node (concat (getShardsAddresses this)) /\
       is_local node = true /\ port node = getTCPPort ctx) ->
   exists node,
     In node (concat (getShardsAddresses this)) /\
     is_local node = true /\ port node = getTCPPort ctx /\
     hash_of_address = getHash node /\
     (getHash node <> EmptyString ->
      read column_names metadata_snapshot query ctx processed_stage
           max_block_size_ (this, w)
      <> (Throw CouldNotFindOurself, (this, w))) /\
     (getHash node <> EmptyString ->
      forall i f rewritten header_,
        find_table_function (tables query) (tree_hash this)
        = Ok (Some (i, f)) ->
        overwrite_bucket f (getHash node) = Ok rewritten ->
        getSampleBlock (rewritten_query query i rewritten) ctx
                       processed_stage = inr header_ ->
        metadata_check column_names = None ->
        bucket_slot rewritten = Some (ASTLiteral (FString (getHash node))) /\
        read column_names metadata_snapshot query ctx processed_stage
             max_block_size_ (this, w)
        = (Ok (Pipe_united
                 (fan_out this ctx processed_stage
                    (queryToString (rewritten_query query i rewritten))
                    header_)),
           (with_fan_out_connections this ctx,
            record_event (EvDumpTree f) w))) /\
     forall pipe st',
       read column_names metadata_snapshot query ctx processed_stage
            max_block_size_ (this, w)
       = (Ok pipe, st') ->
       exists i f rewritten header_,
         find_table_function (tables query) (tree_hash this)
         = Ok (Some (i, f)) /\
         overwrite_bucket f (getHash node) = Ok rewritten /\
         bucket_slot rewritten = Some (ASTLiteral (FString (getHash node))) /\
         pipe = Pipe_united
                  (fan_out this ctx processed_stage
                     (queryToString (rewritten_query query i rewritten))
                     header_) /\
         st' = (with_fan_out_connections this ctx,
                record_event (EvDumpTree f) w)).
Proof.
  intros Hinit.
  destruct (find_hash_of_address_result (getShardsAddresses this)
              (getTCPPort ctx)) as [[Hnil Hh]|(node & Hin & Hh)].
  - split.
    + intros _. rewrite read_on_initiator by exact Hinit.
      rewrite read_initiator_cases. cbv zeta. now rewrite Hh.
    + intros (node & Hin & Hl & Hp). exfalso.
      assert (Hs : In node (self_addresses (getShardsAddresses this)
                                           (getTCPPort ctx))).
      { apply filter_In. split; [exact Hin|].
        rewrite Hl, Hp, Z.eqb_refl. reflexivity. }
      rewrite Hnil in Hs. exact Hs.
  - apply filter_In in Hin as [Hin Htest].
    apply andb_true_iff in Htest as [Hl Hp]. apply Z.eqb_eq in Hp.
    split.
    + intros Hnone. exfalso. apply (Hnone node Hin). now split.
    + intros _. exists node.
      split; [exact Hin|]. split; [exact Hl|]. split; [exact Hp|].
      split; [exact Hh|]. split; [|split].
      * intros Hne. apply read_goes_past_self_resolution; [exact Hinit|].
        now rewrite Hh.
      * intros Hne i f rewritten header_ Hfind Ho Hheader Hcheck.
        split; [now apply overwrite_bucket_Ok in Ho|].
        apply read_initiator_returns; try assumption; now rewrite Hh.
      * intros pipe st'. rewrite read_on_initiator by exact Hinit.
        rewrite read_initiator_cases. cbv zeta. rewrite <- Hh.
        destruct (String.eqb hash_of_address EmptyString); [discriminate|].
        destruct (find_table_function (tables query) (tree_hash this))
          as [[[i f]|]|e|c]; try discriminate.
        destruct (overwrite_bucket f hash_of_address) as [r|e|c] eqn:Ho;
          try discriminate.
        destruct (getSampleBlock _ ctx processed_stage) as [e|header_];
          [discriminate|].
        destruct (metadata_check column_names); [discriminate|].
        intros [= <- <-]. exists i, f, r, header_.
        repeat split; [exact Ho | now apply overwrite_bucket_Ok in Ho].
Qed.

(** C1, as the code has it.  On the initiator, once self-resolution has
    found a hash, take the first table expression whose table function
    has the precomputed tree hash, every table expression before it
    carrying a table function with another tree hash; when the second
    element of the argument list of that table function is a string
    literal, the rewrite overwrites that one literal with the hash and
    leaves the rest as it was: the function node with its name, its
    children behind the argument list, the argument-list node, every
    other argument, the other fields of the table expression, every
    other table expression, the select list and the WHERE condition.
    The text of the tree so rewritten shows the hash as a quoted
    literal, and when the header analysis of the rewritten query and the
    column check go through, [read] returns one stream per node of the
    topology, each with that text.  Nothing is said about the original
    bucket string elsewhere in the text. *)
Theorem read_overwrites_bucket_slot
        (before after : list ASTTableExpression) (te : ASTTableExpression)
        (f : IAST) (bucket : string) :
  getCurrentQueryId ctx = getInitialQueryId ctx ->
  hash_of_address <> EmptyString ->
  tables query = (before ++ te :: after)%list ->
  no_matching_table_function before (tree_hash this) ->
  table_function te = Some f ->
  getTreeHash f = tree_hash this ->
  bucket_slot f = Some (ASTLiteral (FString bucket)) ->
  exists rewritten,
    overwrite_bucket f hash_of_address = Ok rewritten /\
    bucket_slot rewritten = Some (ASTLiteral (FString hash_of_address)) /\
    (forall j, j <> 1 -> argument_slot j rewritten = argument_slot j f) /\
    node_head rewritten = node_head f /\
    tl (node_children rewritten) = tl (node_children f) /\
    option_map node_head (hd_error (node_children rewritten))
    = option_map node_head (hd_error (node_children f)) /\
    rewritten_query query (length before) rewritten
    = mkSelectQuery (select_list query)
        (before
         ++ mkTableExpression (database_and_table_name te) (Some rewritten)
                              (subquery te)
         :: after)
        (where_condition query) /\
    Contains (queryToString
                (rewritten_query query (length before) rewritten))
             (quoteString hash_of_address) /\
    forall header_,
      getSampleBlock (rewritten_query query (length before) rewritten)
                     ctx processed_stage = inr header_ ->
      metadata_check column_names = None ->
      read column_names metadata_snapshot query ctx processed_stage
           max_block_size_ (this, w)
      = (Ok (Pipe_united
               (map (fun node =>
                       mkRemoteStream (Connection_of_node ctx node)
                         (queryToString
                            (rewritten_query query (length before)
                                             rewritten))
                         header_
                         match getScalars ctx with
                         | Some s => s
                         | None => []
                         end
                         processed_stage)
                    (concat (getShardsAddresses this)))),
         (with_fan_out_connections this ctx,
          record_event (EvDumpTree f) w)).
Proof.
  intros Hinit Hne Htables Hbefore Hf Hhash Hslot.
  destruct (overwrite_bucket_string f hash_of_address Hslot)
    as [rewritten Ho].
  assert (Hq : rewritten_query query (length before) rewritten
               = mkSelectQuery (select_list query)
                   (before
                    ++ mkTableExpression (database_and_table_name te)
                                         (Some rewritten) (subquery te)
                    :: after)
                   (where_condition query)).
  { unfold rewritten_query, set_tables.
    now rewrite Htables, list_alter_app. }
  destruct (overwrite_bucket_frame f hash_of_address Ho)
    as (Hhead & Htail & Hargs).
  exists rewritten. split; [exact Ho|].
  split; [now apply overwrite_bucket_Ok in Ho|].
  split;
    [intros j Hj;
     now apply (overwrite_bucket_other_arguments f hash_of_address)|].
  split; [exact Hhead|]. split; [exact Htail|]. split; [exact Hargs|].
  split; [exact Hq|].
  split.
  - rewrite Hq.
    apply queryToString_shows_argument
      with (te := mkTableExpression (database_and_table_name te)
                                    (Some rewritten) (subquery te))
           (f := rewritten) (j := 1).
    + simpl. apply in_elt.
    + reflexivity.
    + now apply overwrite_bucket_Ok in Ho.
  - intros header_ Hheader Hcheck.
    apply (@read_initiator_returns (length before) f rewritten header_
             Hinit Hne); try assumption.
    rewrite Htables.
    apply (@find_table_function_found _ before after te f _
             Hbefore Hf Hhash).
Qed.

End InitiatorClaims.

(* ================================================================== *)
(** * The initiator claims on the example cluster *)

Module InitiatorExamples.

Import Example ExampleNetworks ExampleTopologies.

(** The storage was registered for the invocation on real-bucket; the
    query that arrives names other-bucket. *)
Lemma no_matching_table_function_is_fatal_example :
  @read E_one_key ["a"] metadata
    (query_of [from_function (s3Distributed "other-bucket")])
    ctx_initiator Complete 100
    (storage plain_shards (s3Distributed "real-bucket") EmptyString,
     World_init)
  = (Throw NoTableFunction,
     (storage plain_shards (s3Distributed "real-bucket") EmptyString,
      World_init)).
Proof.
  apply (@no_matching_table_function_is_fatal E_one_key ["a"] metadata
           (query_of [from_function (s3Distributed "other-bucket")])
           ctx_initiator Complete 100
           (storage plain_shards (s3Distributed "real-bucket") EmptyString)
           World_init eq_refl).
  split; [discriminate|].
  constructor; [|constructor].
  eexists. split; [reflexivity|]. vm_compute. discriminate.
Qed.

(** C6.  The claim holds where every table expression carries a table
    function (the first run below: a table function of another tree hash
    alone, and [read] throws the LOGICAL_ERROR of line 328 with nothing
    created).  It fails where one does not: line 313 dereferences
    [table_function] unchecked.  For SELECT * FROM t, and for a table
    function of another tree hash followed by a plain table, no table
    expression has a table function with the precomputed tree hash, and
    [read] ends in a null dereference instead of the LOGICAL_ERROR. *)
Theorem missing_table_function_crashes_instead_of_raising :
  @read E_one_key ["a"] metadata
    (query_of [from_function (s3Distributed "other-bucket")])
    ctx_initiator Complete 100
    (storage plain_shards (s3Distributed "real-bucket") EmptyString,
     World_init)
  = (Throw (DBException "No table function" LOGICAL_ERROR),
     (storage plain_shards (s3Distributed "real-bucket") EmptyString,
      World_init)) /\
  (forall te f,
      In te [from_table "t"] -> table_function te = Some f ->
      @getTreeHash E_one_key f
      <> tree_hash (storage plain_shards (s3Distributed "real-bucket")
                            EmptyString)) /\
  fst (@read E_one_key ["a"] metadata (query_of [from_table "t"])
         ctx_initiator Complete 100
         (storage plain_shards (s3Distributed "real-bucket") EmptyString,
          World_init))
  = Crash NullDereference /\
  (forall te f,
      In te [from_function (s3Distributed "other-bucket"); from_table "t"] ->
      table_function te = Some f ->
      @getTreeHash E_one_key f
      <> tree_hash (storage plain_shards (s3Distributed "real-bucket")
                            EmptyString)) /\
  fst (@read E_one_key ["a"] metadata
         (query_of [from_function (s3Distributed "other-bucket");
                    from_table "t"])
         ctx_initiator Complete 100
         (storage plain_shards (s3Distributed "real-bucket") EmptyString,
          World_init))
  = Crash NullDereference.
Proof.
  split; [vm_compute; reflexivity|].
  split; [intros te f [<-|[]] H; discriminate|].
  split; [reflexivity|].
  split; [|reflexivity].
  intros te f [<-|[<-|[]]] H; [|discriminate].
  injection H as <-. vm_compute. discriminate.
Qed.

(** Both halves: a topology without a local node, and the example
    topology, whose local node on port 123 has the hash H123. *)
Lemma self_resolution_fails_fast_witness :
  @read E_one_key ["a"] metadata plain_query ctx_initiator Complete 100
    (storage [[node "a" 9000 false]] (s3Distributed "real-bucket")
             EmptyString,
     World_init)
  = (Throw CouldNotFindOurself,
     (storage [[node "a" 9000 false]] (s3Distributed "real-bucket")
              EmptyString,
      World_init)) /\
  exists local,
    In local (concat plain_shards) /\
    @getHash E_one_key local = "H123" /\
    fst (@read E_one_key ["a"] metadata plain_query ctx_initiator Complete
           100
           (storage plain_shards (s3Distributed "real-bucket") EmptyString,
            World_init))
    = Ok (Pipe_united
            (@fan_out (storage plain_shards (s3Distributed "real-bucket")
                               EmptyString)
                      ctx_initiator Complete
                      "SELECT * FROM s3Distributed('cluster', 'H123', 'CSV')"
                      ["*"])).
Proof.
  split.
  - apply (@self_resolution_fails_fast E_one_key ["a"] metadata plain_query
             ctx_initiator Complete 100
             (storage [[node "a" 9000 false]] (s3Distributed "real-bucket")
                      EmptyString)
             World_init eq_refl).
    intros n [<-|[]] [Hl _]. discriminate.
  - destruct (proj2 (@self_resolution_fails_fast E_one_key ["a"] metadata
                       plain_query ctx_initiator Complete 100
                       (storage plain_shards (s3Distributed "real-bucket")
                                EmptyString)
                       World_init eq_refl))
      as (local & Hin & _ & _ & Hh & _ & Hgo & _).
    + exists (node "b" 123 true). split; [right; left; reflexivity|].
      split; reflexivity.
    + exists local. split; [exact Hin|].
      assert (Hhash : @getHash E_one_key local = "H123")
        by (rewrite <- Hh; reflexivity).
      split; [exact Hhash|].
      assert (Hne : @getHash E_one_key local <> EmptyString)
        by (rewrite Hhash; discriminate).
      destruct (Hgo Hne 0 (s3Distributed "real-bucket")
                    (s3Distributed "H123") ["*"]
                    eq_refl
                    ltac:(rewrite Hhash; reflexivity)
                    eq_refl eq_refl) as [_ Hread].
      rewrite Hread. reflexivity.
Defined.

Lemma read_overwrites_bucket_slot_witness :
  exists rewritten,
    overwrite_bucket (s3Distributed "real-bucket") "H123" = Ok rewritten /\
    bucket_slot rewritten = Some (ASTLiteral (FString "H123")) /\
    node_head rewritten = ASTFunction "s3Distributed" [] /\
    Contains (queryToString (rewritten_query plain_query 0 rewritten))
             "'H123'".
Proof.
  destruct (@read_overwrites_bucket_slot E_one_key ["a"] metadata
              plain_query ctx_initiator Complete 100
              (storage plain_shards (s3Distributed "real-bucket")
                       EmptyString)
              World_init [] [] (from_function (s3Distributed "real-bucket"))
              (s3Distributed "real-bucket") "real-bucket"
              eq_refl ltac:(discriminate) eq_refl
              (Forall_nil _) eq_refl eq_refl eq_refl)
    as (rewritten & Ho & Hs & _ & Hhead & _ & _ & _ & Hc & _).
  exists rewritten. split; [exact Ho|]. split; [exact Hs|].
  split; [exact Hhead | exact Hc].
Defined.

(** C1 as stated fails: the query also names the bucket in its select
    list; the text sent to the workers shows the hash in the bucket slot
    and still contains the original bucket string. *)
Lemma rewritten_text_keeps_bucket_string_elsewhere :
  exists st',
    @read E_one_key ["a"] metadata echo_query ctx_initiator Complete 100
      (storage plain_shards (s3Distributed "real-bucket") EmptyString,
       World_init)
    = (Ok (Pipe_united
             (@fan_out (storage plain_shards (s3Distributed "real-bucket")
                                EmptyString)
                       ctx_initiator Complete
                "SELECT 'real-bucket', * FROM s3Distributed('cluster', 'H123', 'CSV')"
                ["'real-bucket'"; "*"])),
       st') /\
    Contains
      "SELECT 'real-bucket', * FROM s3Distributed('cluster', 'H123', 'CSV')"
      "real-bucket".
Proof.
  eexists. split.
  - vm_compute. reflexivity.
  - apply contains_Contains. vm_compute. reflexivity.
Qed.

(** A table expression that is a plain table has no table function: the
    scan dereferences it all the same. *)
Lemma read_dereferences_missing_table_function :
  fst (@read E_one_key ["a"] metadata
         (query_of [from_table "t"; from_function (s3Distributed "real-bucket")])
         ctx_initiator Complete 100
         (storage plain_shards (s3Distributed "real-bucket") EmptyString,
          World_init))
  = Crash NullDereference.
Proof. reflexivity. Qed.

End InitiatorExamples.


(* ================================================================== *)
(** * The initiator's key sequence under interleaved pulls *)

Module InitiatorFacts.

Import Initiator.

Lemma replies_cons (worker : nat) (later : list nat) (keys : list string) :
  replies (worker :: later) keys
  = fst (serve_pull keys) :: replies later (snd (serve_pull keys)).
Proof.
  unfold replies. simpl. destruct (serve_pull keys) as [reply keys'].
  simpl. destruct (serve later keys') as [served final]. reflexivity.
Qed.

Lemma replies_length (schedule : list nat) (keys : list string) :
  length (replies schedule keys) = length schedule.
Proof.
  revert keys. induction schedule as [|worker later IH]; intros keys.
  - reflexivity.
  - rewrite replies_cons. simpl. now rewrite IH.
Qed.

(** Pull number [i] receives key number [i], or the empty reply when the
    sequence has fewer keys. *)
Lemma replies_nth (schedule : list nat) (keys : list string) (i : nat) :
  i < length schedule ->
  nth_error (replies schedule keys) i = Some (nth i keys EmptyString).
Proof.
  revert keys i. induction schedule as [|worker later IH];
    intros keys i Hi; simpl in Hi; [lia|].
  rewrite replies_cons. destruct i as [|i]; simpl.
  - now destruct keys.
  - rewrite IH by lia. now destruct keys; [destruct i|].
Qed.

Lemma reply_is_nth (schedule : list nat) (keys : list string) (i : nat)
      (k : string) :
  nth_error (replies schedule keys) i = Some k ->
  i < length schedule /\ k = nth i keys EmptyString.
Proof.
  intros H.
  assert (Hi : i < length schedule).
  { rewrite <- (replies_length schedule keys).
    apply nth_error_Some. congruence. }
  split; [exact Hi|]. rewrite (@replies_nth schedule keys i Hi) in H.
  congruence.
Qed.

Lemma key_position (keys : list string) (i : nat) :
  nth i keys EmptyString <> EmptyString -> i < length keys.
Proof.
  intros H. destruct (Nat.lt_ge_cases i (length keys)) as [Hlt|Hge];
    [exact Hlt|].
  now rewrite nth_overflow in H.
Qed.

(** C4.  Pulls of any number of workers, served one at a time in any
    order from a sequence of distinct non-empty keys: no key is the
    reply of two pulls; once there have been as many pulls as keys,
    every key is the reply of exactly one pull; every pull after that
    gets the empty reply; and nothing but a key or the empty reply is
    ever handed out. *)
Theorem each_key_is_handed_out_once (keys : list string)
        (schedule : list nat) :
  NoDup keys ->
  Forall (fun k => k <> EmptyString) keys ->
  (forall i j k,
      nth_error (replies schedule keys) i = Some k ->
      nth_error (replies schedule keys) j = Some k ->
      k <> EmptyString -> i = j) /\
  (length keys <= length schedule ->
   forall k, In k keys ->
     exists i, nth_error (replies schedule keys) i = Some k /\
               forall j, nth_error (replies schedule keys) j = Some k ->
                         j = i) /\
  (forall i, length keys <= i -> i < length schedule ->
             nth_error (replies schedule keys) i = Some EmptyString) /\
  (forall k, In k (replies schedule keys) -> k = EmptyString \/ In k keys).
Proof.
  intros Hnodup Hnonempty.
  assert (Hinj : forall i j k,
             nth_error (replies schedule keys) i = Some k ->
             nth_error (replies schedule keys) j = Some k ->
             k <> EmptyString -> i = j).
  { intros i j k Hi Hj Hk.
    apply reply_is_nth in Hi as [_ Hi]. apply reply_is_nth in Hj as [_ Hj].
    apply (proj1 (NoDup_nth keys EmptyString) Hnodup).
    - apply key_position. congruence.
    - apply key_position. congruence.
    - congruence. }
  split; [exact Hinj|]. split; [|split].
  - intros Hlen k Hin.
    destruct (In_nth keys k EmptyString Hin) as (i & Hi & Hk).
    exists i. split.
    + rewrite replies_nth by lia. now rewrite Hk.
    + intros j Hj. apply (Hinj j i k Hj).
      * rewrite replies_nth by lia. now rewrite Hk.
      * rewrite Forall_forall in Hnonempty. now apply Hnonempty.
  - intros i Hge Hlt. rewrite replies_nth by exact Hlt.
    now rewrite nth_overflow.
  - intros k Hin. apply In_nth_error in Hin as [i Hi].
    apply reply_is_nth in Hi as [_ ->].
    destruct (Nat.lt_ge_cases i (length keys)) as [Hlt|Hge].
    + right. now apply nth_In.
    + left. now apply nth_overflow.
Qed.

(** The spec's run: five keys, three workers taking turns. *)
Lemma each_key_is_handed_out_once_witness :
  replies [0; 1; 2; 0; 1; 2; 0] ["a"; "b"; "c"; "d"; "e"]
  = ["a"; "b"; "c"; "d"; "e"; EmptyString; EmptyString] /\
  forall i, 5 <= i -> i < 7 ->
    nth_error (replies [0; 1; 2; 0; 1; 2; 0] ["a"; "b"; "c"; "d"; "e"]) i
    = Some EmptyString.
Proof.
  split; [reflexivity|].
  apply (@each_key_is_handed_out_once ["a"; "b"; "c"; "d"; "e"]
           [0; 1; 2; 0; 1; 2; 0]).
  - repeat constructor; simpl; intuition discriminate.
  - repeat constructor; discriminate.
Defined.

End InitiatorFacts.


(* ================================================================== *)
(** * Row requests: when they pull, what they keep, how they can end *)

Section RowRequests.

Context {E : Externals}.

Lemma inner_generate_world (this : StorageS3SequentialSource) (w : World) :
  snd (snd (inner_generate (this, w))) = w.
Proof.
  unfold inner_generate. destruct (inner this) as [r|]; [|reflexivity].
  now destruct (StorageS3Source_generate r).
Qed.

Lemma inner_generate_object (this : StorageS3SequentialSource) (w : World) :
  exists x, fst (snd (inner_generate (this, w))) = set_inner this x.
Proof.
  unfold inner_generate. destruct (inner this) as [r|] eqn:Hr.
  - destruct (StorageS3Source_generate r) as [c r']. now exists (Some r').
  - exists None. simpl. now rewrite <- Hr, set_inner_same.
Qed.

Lemma set_inner_twice (this : StorageS3SequentialSource)
      (x y : option StorageS3Source) :
  set_inner (set_inner this x) y = set_inner this y.
Proof. reflexivity. Qed.

Lemma createOrUpdateInnerSource_object (this : StorageS3SequentialSource)
      (w : World) :
  exists x,
    fst (snd (createOrUpdateInnerSource (this, w))) = set_inner this x.
Proof.
  destruct (askAboutNextKey_one_exchange this w) as [Hthis _].
  unfold createOrUpdateInnerSource, bind.
  destruct (askAboutNextKey (this, w)) as [[key|e|f] [this' w']];
    simpl in *; subst this';
    try (exists (inner this); now rewrite set_inner_same).
  destruct (String.eqb key EmptyString); simpl;
    [exists (inner this); now rewrite set_inner_same|].
  destruct (S3_URI_of key) as [e|u]; simpl;
    [exists (inner this); now rewrite set_inner_same|].
  eexists. reflexivity.
Qed.

(** When [createOrUpdateInnerSource] returns true a reader is in place. *)
Lemma createOrUpdateInnerSource_true (st st' : SourceState) :
  createOrUpdateInnerSource st = (Ok true, st') ->
  inner (fst st') <> None.
Proof.
  unfold createOrUpdateInnerSource, bind, ret, throw.
  destruct (askAboutNextKey st) as [[key|e|f] [this' w']]; try discriminate.
  destruct (String.eqb key EmptyString); [discriminate|].
  destruct (S3_URI_of key) as [e|u]; [discriminate|].
  unfold get, modify. simpl. intros [= <-]. discriminate.
Qed.

(** The pull stops the program only through its [assert]. *)
Lemma askAboutNextKey_crash (st : SourceState) (f : Fault) :
  fst (askAboutNextKey st) = Crash f ->
  f = AssertionFailed /\ ~ assert_passes.
Proof.
  destruct st as [this w].
  destruct (network (connections this) (exchanges w)) as [e|e|e|p] eqn:H.
  - rewrite (askAboutNextKey_get_fails _ _ H). discriminate.
  - rewrite (askAboutNextKey_send_fails _ _ H). discriminate.
  - rewrite (askAboutNextKey_receive_fails _ _ H). discriminate.
  - unfold askAboutNextKey, try_catch, bind, pool_get, sendNextTaskRequest,
      receivePacket, get, log, modify, ret, throw, crash; simpl.
    rewrite ?H; simpl. unfold assert_packet_type.
    destruct NDEBUG eqn:Hd; simpl; [discriminate|].
    destruct (Z.eqb NextTaskReply 0) eqn:Hz; simpl; [|discriminate].
    intros [= <-]. split; [reflexivity|].
    apply Z.eqb_eq in Hz. unfold assert_passes.
    intros [Hn|Hn]; congruence.
Qed.

Lemma createOrUpdateInnerSource_crash (st : SourceState) (f : Fault) :
  fst (createOrUpdateInnerSource st) = Crash f ->
  f = AssertionFailed /\ ~ assert_passes.
Proof.
  pose proof (@askAboutNextKey_crash st f) as Hask.
  unfold createOrUpdateInnerSource, bind.
  destruct (askAboutNextKey st) as [[key|e|g] st1]; simpl in *;
    try discriminate; [|intros [= ->]; now apply Hask].
  unfold ret, throw, get, modify.
  destruct (String.eqb key EmptyString); [discriminate|].
  destruct (S3_URI_of key); discriminate.
Qed.

(** X1.  A row request contacts the channel exactly when a reader is in
    place and has no batch to deliver, and then it begins exactly one
    exchange: with no reader, or with a reader that delivers a batch, the
    count of exchanges stays. *)
Theorem generate_pulls_exactly_when_reader_is_drained
        (this : StorageS3SequentialSource) (w : World) :
  exchanges (snd (snd (generate (this, w))))
  = match inner this with
    | Some r =>
        if Chunk_bool (fst (StorageS3Source_generate r))
        then exchanges w
        else S (exchanges w)
    | None => exchanges w
    end.
Proof.
  destruct (inner this) as [r|] eqn:Hr.
  - destruct (Chunk_bool (fst (StorageS3Source_generate r))) eqn:Hc.
    + now rewrite (generate_from_reader this w Hr Hc).
    + rewrite (generate_reader_exhausted this w Hr Hc).
      pose proof (createOrUpdateInnerSource_one_exchange
                    (set_inner this
                       (Some (snd (StorageS3Source_generate r)))) w) as Hx.
      destruct (createOrUpdateInnerSource _)
        as [[[|]|e|f] [this' w']]; cbn [fst snd] in *; try exact Hx.
      now rewrite inner_generate_world.
  - now rewrite (generate_without_reader this w Hr).
Qed.

(** The one way a row request can stop the program is the [assert] of
    the pull. *)
Lemma generate_crash (st : SourceState) (f : Fault) :
  fst (generate st) = Crash f ->
  f = AssertionFailed /\ ~ assert_passes.
Proof.
  destruct st as [this w].
  destruct (inner this) as [r|] eqn:Hr.
  - destruct (Chunk_bool (fst (StorageS3Source_generate r))) eqn:Hc.
    + rewrite (generate_from_reader this w Hr Hc). discriminate.
    + rewrite (generate_reader_exhausted this w Hr Hc).
      pose proof (@createOrUpdateInnerSource_true
                    (set_inner this
                       (Some (snd (StorageS3Source_generate r))), w))
        as Htrue.
      pose proof (@createOrUpdateInnerSource_crash
                    (set_inner this
                       (Some (snd (StorageS3Source_generate r))), w) f)
        as Hcrash.
      destruct (createOrUpdateInnerSource _)
        as [[[|]|e|g] [this' w']]; cbn [fst snd] in *; try discriminate.
      * specialize (Htrue _ eq_refl). cbn [fst] in Htrue.
        unfold inner_generate. destruct (inner this') as [r'|];
          [|contradiction].
        destruct (StorageS3Source_generate r'). discriminate.
      * intros [= ->]. now apply Hcrash.
  - rewrite (generate_without_reader this w Hr). discriminate.
Qed.

Lemma generate_object (this : StorageS3SequentialSource) (w : World) :
  exists reader,
    fst (snd (generate (this, w))) = set_inner this reader.
Proof.
  destruct (inner this) as [r|] eqn:Hr.
  - destruct (Chunk_bool (fst (StorageS3Source_generate r))) eqn:Hc.
    + rewrite (generate_from_reader this w Hr Hc). eexists. reflexivity.
    + rewrite (generate_reader_exhausted this w Hr Hc).
      destruct (createOrUpdateInnerSource_object
                  (set_inner this (Some (snd (StorageS3Source_generate r))))
                  w) as [x Hx].
      destruct (createOrUpdateInnerSource _)
        as [[[|]|e|g] [this' w']]; cbn [fst snd] in *;
        try (subst this'; exists x; reflexivity).
      destruct (inner_generate_object this' w') as [y Hy].
      exists y. rewrite Hy. now subst this'.
  - rewrite (generate_without_reader this w Hr).
    exists None. simpl. now rewrite <- Hr, set_inner_same.
Qed.

(** X2.  A row request never dereferences a null reader: the second
    [inner->generate()] runs only after [createOrUpdateInnerSource] has put
    a reader in place.  Where the [assert] of the pull does not stop the
    program, nothing in a row request does. *)
Theorem generate_never_dereferences_null (st : SourceState) :
  fst (generate st) <> Crash NullDereference /\
  (assert_passes -> forall f, fst (generate st) <> Crash f).
Proof.
  split.
  - intros H. apply generate_crash in H as [H _]. discriminate.
  - intros Ha f H. apply generate_crash in H as [_ H]. contradiction.
Qed.

(** X3.  A row request changes nothing of the source but its reader:
    header, query id, both builders (the credentials and the description
    of the source) and the connection pool are after it what they were
    before, whatever its outcome. *)
Theorem generate_changes_only_the_reader
        (this : StorageS3SequentialSource) (w : World) :
  header (fst (snd (generate (this, w)))) = header this /\
  initial_query_id (fst (snd (generate (this, w)))) = initial_query_id this /\
  s3_source_builder (fst (snd (generate (this, w))))
  = s3_source_builder this /\
  cli_builder (fst (snd (generate (this, w)))) = cli_builder this /\
  connections (fst (snd (generate (this, w)))) = connections this.
Proof.
  destruct (generate_object this w) as [reader ->]. now repeat split.
Qed.

End RowRequests.

(* ================================================================== *)
(** * Runs of a source: batches in order, key after key *)

Section Runs.

Context {E : Externals}.

Lemma row_requests_app (a b : nat) (st : SourceState) :
  row_requests (a + b) st
  = let (xs, st1) := row_requests a st in
    let (ys, st2) := row_requests b st1 in
    ((xs ++ ys)%list, st2).
Proof.
  revert st. induction a as [|a IH]; intros st; simpl.
  - now destruct (row_requests b st).
  - destruct (generate st) as [r st']. rewrite IH.
    destruct (row_requests a st') as [xs st1].
    now destruct (row_requests b st1).
Qed.

Lemma set_pending_same (r : StorageS3Source) :
  set_pending r (src_pending r) = r.
Proof. now destruct r. Qed.

Lemma generate_delivers (this : StorageS3SequentialSource) (w : World)
      (r : StorageS3Source) (c : Chunk) (cs : list Chunk) :
  inner this = Some r ->
  src_pending r = c :: cs ->
  Chunk_bool c = true ->
  generate (this, w)
  = (Ok c, (set_inner this (Some (set_pending r cs)), w)).
Proof.
  intros Hr Hp Hc.
  assert (Hg : StorageS3Source_generate r = (c, set_pending r cs))
    by (unfold StorageS3Source_generate; now rewrite Hp).
  rewrite (generate_from_reader this w Hr); now rewrite Hg.
Qed.

Lemma row_requests_deliver_pending
      (this : StorageS3SequentialSource) (w : World)
      (r : StorageS3Source) :
  inner this = Some r ->
  Forall (fun c => Chunk_bool c = true) (src_pending r) ->
  row_requests (length (src_pending r)) (this, w)
  = (map Ok (src_pending r), (set_inner this (Some (set_pending r [])), w)).
Proof.
  remember (src_pending r) as cs eqn:Hcs. symmetry in Hcs.
  revert this r Hcs. induction cs as [|c cs IH]; intros this r Hcs Hr Hall.
  - simpl. rewrite <- Hcs, set_pending_same, <- Hr, set_inner_same.
    reflexivity.
  - inversion Hall as [|? ? Hc Hrest]; subst.
    simpl. rewrite (generate_delivers this w Hr Hcs Hc).
    rewrite (IH (set_inner this (Some (set_pending r cs)))
                (set_pending r cs) eq_refl eq_refl Hrest).
    reflexivity.
Qed.

Lemma serves_tail (pool : ConnectionPool) (start : nat) (key : string)
      (keys : list string) :
  serves pool start (key :: keys) ->
  (exists p, network pool start = Received p /\ next_task p = key) /\
  serves pool (S start) keys.
Proof.
  intros [Hkeys Hend]. split.
  - destruct (Hkeys 0) as (p & Hp & Hk); [simpl; lia|].
    exists p. now rewrite Nat.add_0_r in Hp.
  - split.
    + intros i Hi. destruct (Hkeys (S i)) as (p & Hp & Hk); [simpl; lia|].
      exists p. now rewrite Nat.add_succ_r in Hp.
    + destruct Hend as (p & Hp & Hk). exists p. split; [|exact Hk].
      simpl in Hp. now rewrite Nat.add_succ_r in Hp.
Qed.

Lemma serves_nil (pool : ConnectionPool) (start : nat) :
  serves pool start [] ->
  exists p, network pool start = Received p /\ next_task p = EmptyString.
Proof.
  intros [_ (p & Hp & Hk)]. exists p. simpl in Hp.
  now rewrite Nat.add_0_r in Hp.
Qed.

(** A drained reader and a pull that brings a key: the reader of the key
    takes the place, and its first batch, if it has one, is the answer. *)
Lemma generate_after_new_key (this : StorageS3SequentialSource) (w : World)
      (r : StorageS3Source) (p : Packet) (u : S3_URI) :
  inner this = Some r ->
  src_pending r = [] ->
  network (connections this) (exchanges w) = Received p ->
  next_task p <> EmptyString ->
  S3_URI_of (next_task p) = inr u ->
  assert_passes ->
  generate (this, w)
  = (Ok (hd empty_Chunk (object_chunks (uri_bucket u) (uri_key u))),
     (set_inner this
        (Some (set_pending (fresh_reader this u)
                 (tl (object_chunks (uri_bucket u) (uri_key u))))),
      after_pull this w p)).
Proof.
  intros Hr Hd Hnet Hk Hu Ha.
  rewrite (generate_reader_exhausted this w Hr);
    rewrite (StorageS3Source_generate_drained r Hd); [|reflexivity].
  cbn [fst snd]. rewrite <- Hr, set_inner_same.
  rewrite (createOrUpdateInnerSource_key this w Hnet Hk Hu Ha).
  unfold inner_generate. cbn [inner set_inner].
  unfold StorageS3Source_generate, fresh_reader, StorageS3Source_new.
  cbn [src_pending].
  destruct (object_chunks (uri_bucket u) (uri_key u)) as [|c cs];
    reflexivity.
Qed.

(** X6.  A key whose object has no batch ends the stream of the worker
    early: the row request that pulled the key answers with the empty
    chunk, the value that also stands for the end of work, while the
    reader of that key is in place and the keys behind it have not been
    asked for. *)
Theorem empty_object_answers_with_the_empty_chunk
        (this : StorageS3SequentialSource) (w : World)
        (r : StorageS3Source) (p : Packet) (u : S3_URI) :
  inner this = Some r ->
  src_pending r = [] ->
  network (connections this) (exchanges w) = Received p ->
  next_task p <> EmptyString ->
  S3_URI_of (next_task p) = inr u ->
  object_chunks (uri_bucket u) (uri_key u) = [] ->
  assert_passes ->
  generate (this, w)
  = (Ok empty_Chunk,
     (set_inner this (Some (fresh_reader this u)), after_pull this w p)) /\
  exchanges (after_pull this w p) = S (exchanges w).
Proof.
  intros Hr Hd Hnet Hk Hu Hempty Ha. split; [|reflexivity].
  rewrite (generate_after_new_key this w Hr Hd Hnet Hk Hu Ha).
  rewrite Hempty. cbn [hd tl].
  replace (set_pending (fresh_reader this u) [])
    with (fresh_reader this u); [reflexivity|].
  unfold fresh_reader, StorageS3Source_new, set_pending.
  cbn. now rewrite Hempty.
Qed.

(** X4.  A reader in place delivers its batches in order, one per row
    request, and no row request of these contacts the channel: after as
    many requests as it had batches the answers are its batches, the
    reader is drained, and the outside is as it was. *)
Theorem row_requests_deliver_the_reader
        (this : StorageS3SequentialSource) (w : World)
        (r : StorageS3Source) :
  inner this = Some r ->
  Forall (fun c => Chunk_bool c = true) (src_pending r) ->
  fst (row_requests (length (src_pending r)) (this, w))
  = map Ok (src_pending r) /\
  option_map src_pending
    (inner (fst (snd (row_requests (length (src_pending r)) (this, w)))))
  = Some [] /\
  snd (snd (row_requests (length (src_pending r)) (this, w))) = w.
Proof.
  intros Hr Hall. rewrite (row_requests_deliver_pending this w Hr Hall).
  now repeat split.
Qed.

Lemma generate_after_empty_reply (this : StorageS3SequentialSource)
      (w : World) (r : StorageS3Source) (p : Packet) :
  inner this = Some r ->
  src_pending r = [] ->
  network (connections this) (exchanges w) = Received p ->
  next_task p = EmptyString ->
  assert_passes ->
  generate (this, w) = (Ok empty_Chunk, (this, after_pull this w p)).
Proof.
  intros Hr Hd Hnet He Ha.
  rewrite (generate_reader_exhausted this w Hr);
    rewrite (StorageS3Source_generate_drained r Hd); [|reflexivity].
  cbn [fst snd]. rewrite <- Hr, set_inner_same.
  now rewrite (createOrUpdateInnerSource_empty this w Hnet He Ha).
Qed.

Lemma batches_of_key_uri (key : string) (u : S3_URI) :
  S3_URI_of key = inr u ->
  batches_of_key key = object_chunks (uri_bucket u) (uri_key u).
Proof. intros H. unfold batches_of_key. now rewrite H. Qed.

(** From a drained reader on: every key that the network still holds is
    pulled, its batches are delivered in order, and the empty reply ends
    the run. *)
Lemma run_from_drained_reader (keys : list string) :
  forall (this : StorageS3SequentialSource) (w : World)
         (r : StorageS3Source),
    inner this = Some r ->
    src_pending r = [] ->
    serves (connections this) (exchanges w) keys ->
    Forall readable_key keys ->
    assert_passes ->
    exists st',
      row_requests (length (concat (map batches_of_key keys)) + 1) (this, w)
      = ((map Ok (concat (map batches_of_key keys)) ++ [Ok empty_Chunk])%list,
         st') /\
      exchanges (snd st') = exchanges w + length keys + 1.
Proof.
  induction keys as [|key keys IH]; intros this w r Hr Hd Hserves Hkeys Ha.
  - destruct (serves_nil Hserves) as (p & Hnet & He).
    cbn [map concat length Nat.add row_requests].
    rewrite (generate_after_empty_reply this w Hr Hd Hnet He Ha).
    eexists. split; [reflexivity|]. cbn. lia.
  - inversion Hkeys as [|? ? (Hne & (u & Hu) & Hsome & Hall) Hrest]; subst.
    destruct (serves_tail Hserves) as ((p & Hnet & Hk) & Htail).
    rewrite <- Hk in Hne, Hu.
    pose proof (generate_after_new_key this w Hr Hd Hnet Hne Hu Ha) as Hg.
    rewrite Hk in Hu. rewrite (batches_of_key_uri key Hu) in Hsome, Hall.
    cbn [map concat]. rewrite (batches_of_key_uri key Hu).
    destruct (object_chunks (uri_bucket u) (uri_key u)) as [|c cs];
      [contradiction|].
    cbn [hd tl] in Hg. inversion Hall as [|? ? Hc Hcs]; subst.
    replace (length ((c :: cs) ++ concat (map batches_of_key keys)) + 1)
      with (S (length cs
               + (length (concat (map batches_of_key keys)) + 1)))
      by (cbn [app length]; rewrite length_app; lia).
    cbn [row_requests]. rewrite Hg, row_requests_app.
    set (this2 := set_inner this
                    (Some (set_pending (fresh_reader this u) cs))) in *.
    set (w2 := after_pull this w p) in *.
    pose proof (@row_requests_deliver_pending this2 w2
                  (set_pending (fresh_reader this u) cs) eq_refl Hcs)
      as Hdeliver.
    cbn [src_pending set_pending] in Hdeliver. rewrite Hdeliver.
    destruct (IH (set_inner this2
                    (Some (set_pending
                             (set_pending (fresh_reader this u) cs) [])))
                 w2 (set_pending (set_pending (fresh_reader this u) cs) [])
                 eq_refl eq_refl Htail Hrest Ha) as (st' & Hrun & Hx).
    rewrite Hrun. exists st'. split.
    + rewrite map_app. cbn [map app]. now rewrite <- app_assoc.
    + rewrite Hx. subst w2. cbn [exchanges after_pull length]. lia.
Qed.

(** X5.  The whole run of a worker.  When the network hands the worker
    the keys it gets, one per pull and then the empty reply, and each key
    names an object with batches, the source is constructed and its row
    requests answer with the batches of the first key in order, then those
    of the second, and so on, and after the last batch with the empty
    chunk; the worker has then made one pull per key and one more. *)
Theorem worker_delivers_every_key_in_order
        (keys : list string) (query_id : string) (initiator : Address)
        (cli : ClientAuthentificationBuilder)
        (builder : StorageS3SourceBuilder) (w : World) :
  serves (pool_to initiator (context builder)) (exchanges w) keys ->
  Forall readable_key keys ->
  assert_passes ->
  exists source w1 st',
    StorageS3SequentialSource_new query_id initiator cli builder w
    = (Ok source, w1) /\
    row_requests (length (concat (map batches_of_key keys)) + 1) (source, w1)
    = ((map Ok (concat (map batches_of_key keys)) ++ [Ok empty_Chunk])%list,
       st') /\
    exchanges (snd st') = exchanges w + length keys + 1.
Proof.
  intros Hserves Hkeys Ha. unfold StorageS3SequentialSource_new.
  match goal with
  | |- context [createOrUpdateInnerSource (?s, w)] => set (this0 := s)
  end.
  destruct keys as [|key keys].
  - destruct (serves_nil Hserves) as (p & Hnet & He).
    rewrite (createOrUpdateInnerSource_empty this0 w Hnet He Ha).
    exists this0, (after_pull this0 w p). eexists. split; [reflexivity|].
    cbn [map concat length Nat.add row_requests].
    rewrite (generate_without_reader this0 (after_pull this0 w p) eq_refl).
    split; [reflexivity|]. cbn. lia.
  - inversion Hkeys as [|? ? (Hne & (u & Hu) & Hsome & Hall) Hrest]; subst.
    destruct (serves_tail Hserves) as ((p & Hnet & Hk) & Htail).
    rewrite <- Hk in Hne, Hu.
    rewrite (createOrUpdateInnerSource_key this0 w Hnet Hne Hu Ha).
    rewrite Hk in Hu. rewrite (batches_of_key_uri key Hu) in Hsome, Hall.
    set (this1 := set_inner this0 (Some (fresh_reader this0 u))).
    set (w1 := after_pull this0 w p).
    exists this1, w1.
    cbn [map concat]. rewrite (batches_of_key_uri key Hu).
    rewrite length_app, <- Nat.add_assoc, row_requests_app.
    pose proof (@row_requests_deliver_pending this1 w1
                  (fresh_reader this0 u) eq_refl Hall) as Hdeliver.
    change (src_pending (fresh_reader this0 u))
      with (object_chunks (uri_bucket u) (uri_key u)) in Hdeliver.
    rewrite Hdeliver.
    destruct (@run_from_drained_reader keys
                (set_inner this1 (Some (set_pending (fresh_reader this0 u) [])))
                w1 (set_pending (fresh_reader this0 u) [])
                eq_refl eq_refl Htail Hrest Ha) as (st' & Hrun & Hx).
    rewrite Hrun. exists st'. split; [reflexivity|]. split.
    + now rewrite map_app, <- app_assoc.
    + rewrite Hx. subst w1. cbn [exchanges after_pull length]. lia.
Qed.

End Runs.

(* ================================================================== *)
(** * Which node a scan of the topology selects *)

Section ScanSelection.

Context {E : Externals}.

Lemma scan_shards_quiet {A : Type} (test : Address -> bool)
      (pick : Address -> A) (scan : list Address -> A -> A) :
  (forall replicas found,
      scan replicas found
      = match find test replicas with
        | Some node => pick node
        | None => found
        end) ->
  forall (shards : ShardsAddresses) (found : A),
    filter test (concat shards) = [] ->
    fold_left (fun acc replicas => scan replicas acc) shards found = found.
Proof.
  intros Hscan shards found Hnone.
  destruct (scan_shards_result test pick scan Hscan shards found)
    as [[_ H]|(node & Hin & _)]; [exact H|].
  rewrite Hnone in Hin. destruct Hin.
Qed.

Lemma scan_shards_last {A : Type} (test : Address -> bool)
      (pick : Address -> A) (scan : list Address -> A -> A) :
  (forall replicas found,
      scan replicas found
      = match find test replicas with
        | Some node => pick node
        | None => found
        end) ->
  forall (before after : ShardsAddresses) (replicas : list Address)
         (node : Address) (found : A),
    find test replicas = Some node ->
    filter test (concat after) = [] ->
    fold_left (fun acc replicas => scan replicas acc)
              (before ++ replicas :: after)%list found
    = pick node.
Proof.
  intros Hscan before after replicas node found Hfind Hnone.
  rewrite fold_left_app. cbn [fold_left]. rewrite Hscan, Hfind.
  now apply (scan_shards_quiet test pick scan Hscan).
Qed.

(** X7.  The initiator that a worker resolves is the first node with the
    received hash in the last shard that has such a node: the [break]
    leaves the shard, the scan goes on with the next one, and a later
    match replaces an earlier one. *)
Theorem find_initiator_last_shard_wins
        (before after : ShardsAddresses) (replicas : list Address)
        (node : Address) (address_hash : string) :
  find (fun n => String.eqb (getHash n) address_hash) replicas = Some node ->
  matching_addresses after address_hash = [] ->
  find_initiator (before ++ replicas :: after)%list address_hash = node.
Proof.
  intros Hfind Hnone. unfold find_initiator.
  now apply (scan_shards_last
               (fun n => String.eqb (getHash n) address_hash)
               (fun n => n)
               (fun replicas found =>
                  scan_replicas_for_initiator replicas address_hash found)
               (scan_replicas_for_initiator_find address_hash)).
Qed.

(** X8.  The hash that the initiator takes for its own is the hash of the
    first local node on the session port in the last shard that has such
    a node. *)
Theorem find_hash_of_address_last_shard_wins
        (before after : ShardsAddresses) (replicas : list Address)
        (node : Address) (tcp_port : Z) :
  find (fun n => is_local n && Z.eqb (port n) tcp_port) replicas
  = Some node ->
  self_addresses after tcp_port = [] ->
  find_hash_of_address (before ++ replicas :: after)%list tcp_port
  = getHash node.
Proof.
  intros Hfind Hnone. unfold find_hash_of_address.
  now apply (scan_shards_last
               (fun n => is_local n && Z.eqb (port n) tcp_port)
               getHash
               (fun replicas found =>
                  scan_replicas_for_self replicas tcp_port found)
               (scan_replicas_for_self_find tcp_port)).
Qed.

End ScanSelection.

(* ================================================================== *)
(** * The fan-out of the initiator *)

Section FanOut.

Context {E : Externals}.

(** A read of the initiator that returns has built the fan-out. *)
Lemma read_initiator_Ok (column_names : list string)
      (query : ASTSelectQuery) (ctx : Context)
      (processed_stage : QueryProcessingStage)
      (this this' : StorageS3Distributed) (w w' : World) (pipe : Pipe) :
  read_initiator column_names query ctx processed_stage (this, w)
  = (Ok pipe, (this', w')) ->
  this' = with_fan_out_connections this ctx /\
  exchanges w' = exchanges w /\
  exists remote_query header_,
    pipe = Pipe_united
             (fan_out this ctx processed_stage remote_query header_).
Proof.
  rewrite read_initiator_cases. cbv zeta.
  destruct (String.eqb _ EmptyString); [discriminate|].
  destruct (find_table_function (tables query) (tree_hash this))
    as [[[i f]|]|e|c]; try discriminate.
  destruct (overwrite_bucket f _) as [r|e|c]; try discriminate.
  destruct (getSampleBlock _ ctx processed_stage) as [e|header_];
    [discriminate|].
  destruct (metadata_check column_names); [discriminate|].
  intros [= <- <- <-]. repeat split. now eexists _, _.
Qed.

(** Whatever its outcome, a read of the initiator makes no pull and
    leaves the storage as it was or with the whole fan-out added. *)
Lemma read_initiator_effects (column_names : list string)
      (query : ASTSelectQuery) (ctx : Context)
      (processed_stage : QueryProcessingStage)
      (this : StorageS3Distributed) (w : World) :
  exchanges (snd (snd (read_initiator column_names query ctx
                                      processed_stage (this, w))))
  = exchanges w /\
  (fst (snd (read_initiator column_names query ctx processed_stage
                            (this, w))) = this \/
   fst (snd (read_initiator column_names query ctx processed_stage
                            (this, w)))
   = with_fan_out_connections this ctx).
Proof.
  rewrite read_initiator_cases. cbv zeta.
  destruct (String.eqb _ EmptyString); [now split; [|left]|].
  destruct (find_table_function (tables query) (tree_hash this))
    as [[[i f]|]|e|c]; try (now split; [|left]).
  destruct (overwrite_bucket f _) as [r|e|c]; try (now split; [|left]).
  destruct (getSampleBlock _ ctx processed_stage) as [e|header_];
    [now split; [|left]|].
  destruct (metadata_check column_names); now split; [|right].
Qed.

(** X9.  A read on the initiator that returns has made one stream and one
    new connection for every node of the topology, in the order of the
    topology and with the local node among them; each stream goes to its
    node with that node's user and password, and all carry the same query
    text, header and stage. *)
Theorem fan_out_reaches_every_node
        (column_names : list string) (metadata_snapshot : StorageMetadata)
        (query : ASTSelectQuery) (ctx : Context)
        (processed_stage : QueryProcessingStage) (max_block_size_ : Z)
        (this this' : StorageS3Distributed) (w w' : World) (pipe : Pipe) :
  getCurrentQueryId ctx = getInitialQueryId ctx ->
  read column_names metadata_snapshot query ctx processed_stage
       max_block_size_ (this, w)
  = (Ok pipe, (this', w')) ->
  exists pipes remote_query header_,
    pipe = Pipe_united pipes /\
    map stream_connection pipes
    = map (Connection_of_node ctx) (concat (getShardsAddresses this)) /\
    Forall (fun s => stream_query s = remote_query /\
                     stream_header s = header_ /\
                     stream_stage s = processed_stage)
           pipes /\
    storage_connections this'
    = (storage_connections this ++ map stream_connection pipes)%list.
Proof.
  intros Hinit. rewrite read_on_initiator by exact Hinit. intros H.
  apply read_initiator_Ok in H as (-> & _ & remote_query & header_ & ->).
  exists (fan_out this ctx processed_stage remote_query header_),
         remote_query, header_.
  assert (Hmap : map stream_connection
                     (fan_out this ctx processed_stage remote_query header_)
                 = map (Connection_of_node ctx)
                       (concat (getShardsAddresses this))).
  { unfold fan_out. rewrite map_map. reflexivity. }
  split; [reflexivity|]. split; [exact Hmap|]. split.
  - unfold fan_out. apply Forall_forall. intros s Hs.
    apply in_map_iff in Hs as (node & <- & _). now repeat split.
  - rewrite Hmap. reflexivity.
Qed.

(** X10.  The connections of the storage are never cleared: of two reads
    on the initiator that both return, the second finds the connections
    of the first and adds its own behind them. *)
Theorem connections_accumulate_over_reads
        (column_names1 column_names2 : list string)
        (metadata1 metadata2 : StorageMetadata)
        (query1 query2 : ASTSelectQuery) (ctx1 ctx2 : Context)
        (stage1 stage2 : QueryProcessingStage) (size1 size2 : Z)
        (this : StorageS3Distributed) (w : World)
        (pipe1 pipe2 : Pipe) (st1 st2 : ReadState) :
  getCurrentQueryId ctx1 = getInitialQueryId ctx1 ->
  getCurrentQueryId ctx2 = getInitialQueryId ctx2 ->
  read column_names1 metadata1 query1 ctx1 stage1 size1 (this, w)
  = (Ok pipe1, st1) ->
  read column_names2 metadata2 query2 ctx2 stage2 size2 st1
  = (Ok pipe2, st2) ->
  storage_connections (fst st2)
  = (storage_connections this
     ++ map (Connection_of_node ctx1) (concat (getShardsAddresses this))
     ++ map (Connection_of_node ctx2) (concat (getShardsAddresses this)))%list.
Proof.
  intros Hinit1 Hinit2.
  rewrite !read_on_initiator by assumption.
  destruct st1 as [this1 w1], st2 as [this2 w2]. intros H1 H2.
  apply read_initiator_Ok in H1 as (-> & _).
  apply read_initiator_Ok in H2 as (-> & _).
  cbn. now rewrite <- app_assoc.
Qed.

(** X11.  Whatever its outcome, a read on the initiator makes no pull
    over a task channel, and it adds connections to the storage all or
    none: the connections are what they were, or what they were with one
    per node of the topology behind them. *)
Theorem read_on_initiator_adds_all_connections_or_none
        (column_names : list string) (metadata_snapshot : StorageMetadata)
        (query : ASTSelectQuery) (ctx : Context)
        (processed_stage : QueryProcessingStage) (max_block_size_ : Z)
        (this : StorageS3Distributed) (w : World) :
  getCurrentQueryId ctx = getInitialQueryId ctx ->
  exchanges (snd (snd (read column_names metadata_snapshot query ctx
                            processed_stage max_block_size_ (this, w))))
  = exchanges w /\
  (storage_connections
     (fst (snd (read column_names metadata_snapshot query ctx
                     processed_stage max_block_size_ (this, w))))
   = storage_connections this \/
   storage_connections
     (fst (snd (read column_names metadata_snapshot query ctx
                     processed_stage max_block_size_ (this, w))))
   = (storage_connections this
      ++ map (Connection_of_node ctx)
             (concat (getShardsAddresses this)))%list).
Proof.
  intros Hinit. rewrite read_on_initiator by exact Hinit.
  destruct (read_initiator_effects column_names query ctx processed_stage
                                   this w) as [Hx [Hs|Hs]];
    split; try exact Hx; rewrite Hs; [now left | now right].
Qed.

End FanOut.

(* ================================================================== *)
(** * The rewrite of the bucket slot as an operation *)

Lemma list_set_same {A : Type} (l : list A) (i : nat) (x : A) :
  nth_error l i = Some x -> list_set l i x = l.
Proof.
  revert i. induction l as [|a l IH]; intros [|i]; simpl; try discriminate.
  - now intros [= ->].
  - intros H. now rewrite IH.
Qed.

Lemma list_set_twice {A : Type} (l : list A) (i : nat) (x y : A) :
  list_set (list_set l i x) i y = list_set l i y.
Proof.
  revert i. induction l as [|a l IH]; intros [|i]; simpl; try reflexivity.
  now rewrite IH.
Qed.

Lemma set_children_same (ast : IAST) :
  set_children ast (node_children ast) = ast.
Proof. now destruct ast. Qed.

Lemma node_children_set (ast : IAST) (cs : list IAST) :
  node_children ast <> [] -> node_children (set_children ast cs) = cs.
Proof. destruct ast; simpl; intros H; try contradiction; reflexivity. Qed.

Lemma set_children_twice (ast : IAST) (cs cs' : list IAST) :
  set_children (set_children ast cs) cs' = set_children ast cs'.
Proof. now destruct ast. Qed.

Lemma nth_error_children (ast : IAST) (i : nat) (x : IAST) :
  nth_error (node_children ast) i = Some x -> node_children ast <> [].
Proof. intros H Hnil. rewrite Hnil in H. now destruct i. Qed.

(** X12.  The rewrite of a table function goes through exactly when its
    argument list has a string literal as second element; with a missing
    argument list, fewer than two arguments, another kind of node or a
    literal of another type it does not return a tree. *)
Theorem overwrite_bucket_succeeds_iff_string_literal
        (f : IAST) (hash_of_address : string) :
  (exists rewritten, overwrite_bucket f hash_of_address = Ok rewritten) <->
  (exists bucket, bucket_slot f = Some (ASTLiteral (FString bucket))).
Proof.
  split.
  - intros [rewritten H]. now apply overwrite_bucket_Ok in H.
  - intros [bucket H]. now apply overwrite_bucket_string with bucket.
Qed.

Lemma overwrite_bucket_value (f : IAST) (bucket h : string)
      (arguments_node : IAST) (others : list IAST) :
  node_children f = arguments_node :: others ->
  nth_error (node_children arguments_node) 1
  = Some (ASTLiteral (FString bucket)) ->
  overwrite_bucket f h
  = Ok (set_children f
          (set_children arguments_node
             (list_set (node_children arguments_node) 1
                       (ASTLiteral (FString h)))
           :: others)).
Proof.
  intros Hc Hn. unfold overwrite_bucket. now rewrite Hc, Hn.
Qed.

(** X13.  The last write wins, and writing what is there changes nothing:
    a table function rewritten with one hash and then with another is the
    table function rewritten with the other alone, so the rewritten tree
    keeps no trace of what stood in the slot; and rewriting with the very
    string of the slot gives the tree back. *)
Theorem overwrite_bucket_last_write_wins
        (f rewritten : IAST) (first second : string) :
  overwrite_bucket f first = Ok rewritten ->
  overwrite_bucket rewritten second = overwrite_bucket f second /\
  (forall bucket,
      bucket_slot f = Some (ASTLiteral (FString bucket)) ->
      overwrite_bucket f bucket = Ok f).
Proof.
  intros H.
  destruct (node_children f) as [|args others] eqn:Hc;
    [unfold overwrite_bucket in H; rewrite Hc in H; discriminate|].
  assert (Hslot : exists b, nth_error (node_children args) 1
                            = Some (ASTLiteral (FString b))).
  { apply overwrite_bucket_Ok in H as [[b Hb] _].
    unfold bucket_slot in Hb. rewrite Hc in Hb. now exists b. }
  destruct Hslot as [b Hb].
  assert (Hf : node_children f <> []) by (rewrite Hc; discriminate).
  pose proof (nth_error_children _ _ Hb) as Ha.
  split.
  - rewrite (overwrite_bucket_value f first Hc Hb) in H.
    injection H as <-.
    rewrite (overwrite_bucket_value f second Hc Hb).
    rewrite (@overwrite_bucket_value _ first second
               (set_children args
                  (list_set (node_children args) 1
                            (ASTLiteral (FString first))))
               others).
    + rewrite set_children_twice, set_children_twice.
      rewrite (node_children_set args _ Ha), list_set_twice. reflexivity.
    + now apply node_children_set.
    + rewrite (node_children_set args _ Ha).
      now apply nth_error_list_set with (ASTLiteral (FString b)).
  - intros bucket Hbucket. unfold bucket_slot in Hbucket.
    rewrite Hc in Hbucket.
    rewrite (overwrite_bucket_value f bucket Hc Hbucket).
    rewrite (list_set_same _ _ Hbucket), set_children_same, <- Hc.
    now rewrite set_children_same.
Qed.

(* ================================================================== *)
(** * The worker side of [read] as a whole *)

Section WorkerRead.

Context {E : Externals}.

Lemma read_on_worker (column_names : list string)
      (metadata_snapshot : StorageMetadata) (query : ASTSelectQuery)
      (ctx : Context) (processed_stage : QueryProcessingStage)
      (max_block_size_ : Z) (this : StorageS3Distributed) (w : World) :
  getCurrentQueryId ctx <> getInitialQueryId ctx ->
  read column_names metadata_snapshot query ctx processed_stage
       max_block_size_ (this, w)
  = (fst (read_secondary this column_names metadata_snapshot ctx
                         max_block_size_ w),
     (this,
      snd (read_secondary this column_names metadata_snapshot ctx
                          max_block_size_ w))).
Proof.
  intros H. unfold read. apply String.eqb_neq in H. rewrite H. simpl.
  now destruct (read_secondary _ _ _ _ _ _).
Qed.

(** What a constructed source is: the object of the constructor's
    arguments, after exactly one pull that was answered, without a reader
    when the answer was empty and with the reader of the key otherwise. *)
Lemma StorageS3SequentialSource_new_Ok (query_id : string)
      (initiator : Address) (cli : ClientAuthentificationBuilder)
      (builder : StorageS3SourceBuilder) (w w' : World)
      (source : StorageS3SequentialSource) :
  StorageS3SequentialSource_new query_id initiator cli builder w
  = (Ok source, w') ->
  exists reader p,
    source
    = mkSource (getHeader (sample_block builder) (need_path builder)
                          (need_file builder))
               query_id builder cli reader
               (pool_to initiator (context builder)) /\
    exchanges w' = S (exchanges w) /\
    network (pool_to initiator (context builder)) (exchanges w)
    = Received p /\
    (next_task p = EmptyString \/
     exists u, S3_URI_of (next_task p) = inr u).
Proof.
  unfold StorageS3SequentialSource_new.
  match goal with
  | |- context [createOrUpdateInnerSource (?s, w)] => set (this0 := s)
  end.
  pose proof (askAboutNextKey_one_exchange this0 w) as [Hthis Hex].
  pose proof (askAboutNextKey_Ok_inv this0 w) as Hinv.
  unfold createOrUpdateInnerSource, bind.
  destruct (askAboutNextKey (this0, w)) as [[key|e|f] [this1 w1]];
    cbn [fst snd] in *; try discriminate.
  subst this1. destruct (Hinv key eq_refl) as (p & Hp & Hk).
  destruct (String.eqb_spec key EmptyString) as [He|Hne].
  - unfold ret. intros [= <- <-]. exists None, p.
    split; [reflexivity|]. split; [exact Hex|]. split; [exact Hp|].
    left. congruence.
  - destruct (S3_URI_of key) as [e|u] eqn:Hu.
    + unfold throw. discriminate.
    + unfold get, modify, ret, bind. cbn [fst snd].
      intros [= <- <-]. eexists _, p.
      split; [reflexivity|]. split; [exact Hex|]. split; [exact Hp|].
      right. exists u. congruence.
Qed.

(** X14.  The source that a worker's [read] returns: it asks for the
    object path exactly when the query names the column [_path] and for
    the file name exactly when it names [_file], its header is the sample
    block of the table with those of the two columns that were asked for
    behind it, it pulls under the initial query id over a pool of three
    connections to the resolved initiator, opened for the initial user of
    the session with the initiator's password, and the constructor has
    made exactly one pull. *)
Theorem read_on_worker_builds_the_source
        (this : StorageS3Distributed) (column_names : list string)
        (metadata_snapshot : StorageMetadata) (ctx : Context)
        (max_block_size_ : Z) (w w' : World)
        (source : StorageS3SequentialSource) :
  read_secondary this column_names metadata_snapshot ctx max_block_size_ w
  = (Ok (Pipe_of_source source), w') ->
  (need_path (s3_source_builder source) = true <->
   In "_path" column_names) /\
  (need_file (s3_source_builder source) = true <->
   In "_file" column_names) /\
  header source
  = (getSampleBlock_of_metadata metadata_snapshot
     ++ (if need_path (s3_source_builder source) then ["_path"] else [])
     ++ (if need_file (s3_source_builder source) then ["_file"] else []))%list
  /\
  initial_query_id source = getInitialQueryId ctx /\
  cli_builder source = storage_cli_builder this /\
  connections source
  = mkPool 3
      (host_name (find_initiator (getShardsAddresses this)
                                 (address_hash_or_filename this)))
      (port (find_initiator (getShardsAddresses this)
                            (address_hash_or_filename this)))
      (getCurrentDatabase ctx) (initial_user ctx)
      (password (find_initiator (getShardsAddresses this)
                                (address_hash_or_filename this)))
      (cluster (find_initiator (getShardsAddresses this)
                               (address_hash_or_filename this)))
      (cluster_secret (find_initiator (getShardsAddresses this)
                                      (address_hash_or_filename this))) /\
  exchanges w' = S (exchanges w).
Proof.
  unfold read_secondary, bind.
  destruct (StorageS3SequentialSource_new _ _ _ _ w) as [[s|e|f] w1] eqn:Hnew;
    try discriminate.
  unfold ret. intros [= <- <-].
  apply StorageS3SequentialSource_new_Ok in Hnew
    as (reader & p & -> & Hx & _).
  cbn [s3_source_builder need_path need_file header initial_query_id
       cli_builder connections sample_block context].
  assert (Hexists : forall name,
             existsb (String.eqb name) column_names = true <->
             In name column_names).
  { intros name. rewrite existsb_exists. split.
    - intros (x & Hin & Heq). apply String.eqb_eq in Heq. now subst.
    - intros Hin. exists name. split; [exact Hin | apply String.eqb_refl]. }
  split; [apply Hexists|]. split; [apply Hexists|].
  split; [|now repeat split].
  unfold getHeader.
  destruct (existsb (String.eqb "_path") column_names),
           (existsb (String.eqb "_file") column_names);
    cbn [app]; rewrite ?app_nil_r, <- ?app_assoc; reflexivity.
Qed.

(** X15.  A worker's [read] returns a pipe exactly when the first pull,
    the one of the constructor, is answered with the empty reply or with
    a key that is an S3 URI; a transport failure, or a key that is no
    URI, makes [read] itself fail. *)
Theorem read_on_worker_returns_iff_first_pull_answered
        (column_names : list string) (metadata_snapshot : StorageMetadata)
        (query : ASTSelectQuery) (ctx : Context)
        (processed_stage : QueryProcessingStage) (max_block_size_ : Z)
        (this : StorageS3Distributed) (w : World) :
  getCurrentQueryId ctx <> getInitialQueryId ctx ->
  assert_passes ->
  (exists pipe st',
      read column_names metadata_snapshot query ctx processed_stage
           max_block_size_ (this, w)
      = (Ok pipe, st'))
  <->
  (exists p,
      network (pool_to (find_initiator (getShardsAddresses this)
                                       (address_hash_or_filename this))
                       ctx)
              (exchanges w)
      = Received p /\
      (next_task p = EmptyString \/
       exists u, S3_URI_of (next_task p) = inr u)).
Proof.
  intros Hworker Ha. rewrite read_on_worker by exact Hworker. split.
  - intros (pipe & st' & H). unfold read_secondary, bind in H.
    destruct (StorageS3SequentialSource_new _ _ _ _ w)
      as [[s|e|f] w1] eqn:Hnew; try discriminate.
    apply StorageS3SequentialSource_new_Ok in Hnew
      as (reader & p & _ & _ & Hp & Hk).
    now exists p.
  - intros (p & Hp & Hk). unfold read_secondary, bind.
    match goal with
    | |- context [StorageS3SequentialSource_new ?q ?i ?c ?b w] =>
        destruct (@new_source_proceeds _ q i c b w p Hp Ha Hk)
          as (source & w' & Hnew & _)
    end.
    rewrite Hnew. now eexists _, _.
Qed.

(** X16.  When no node of the topology has the received hash, the scan
    raises nothing and leaves the default-constructed address as the
    initiator. *)
Theorem find_initiator_without_match (shards : ShardsAddresses)
        (address_hash : string) :
  (forall node, In node (concat shards) -> getHash node <> address_hash) ->
  find_initiator shards address_hash = default_Address.
Proof.
  intros Hnone.
  destruct (find_initiator_result shards address_hash) as [[_ H]|Hin];
    [exact H|].
  unfold matching_addresses in Hin. apply filter_In in Hin as [Hin Hh].
  apply String.eqb_eq in Hh. now apply Hnone in Hin.
Qed.

End WorkerRead.

Section TableFunctionScan.

Context {E : Externals}.

(** X17.  The scan for the table function stops the program exactly when
    a table expression without a table function (a plain table, a
    subquery) stands before every table function with the tree hash: its
    table function is dereferenced unchecked.  The scan never throws. *)
Theorem find_table_function_crashes_iff
        (table_expressions : list ASTTableExpression) (tree_hash_ : Hash) :
  (forall e, find_table_function table_expressions tree_hash_ <> Throw e) /\
  forall c,
    find_table_function table_expressions tree_hash_ = Crash c <->
    c = NullDereference /\
    exists before te after,
      table_expressions = (before ++ te :: after)%list /\
      table_function te = None /\
      no_matching_table_function before tree_hash_.
Proof.
  split; [intros e; apply find_table_function_never_throws|].
  induction table_expressions as [|te tes IH]; intros c; simpl.
  - split; [discriminate|].
    intros (_ & before & t & after & H & _). now destruct before.
  - destruct (table_function te) as [f|] eqn:Hf.
    + destruct (Hash_eqb (getTreeHash f) tree_hash_) eqn:Hh.
      * split; [discriminate|].
        intros (_ & before & t & after & H & Ht & Hb).
        destruct before as [|b before]; simpl in H; injection H as -> ->.
        -- congruence.
        -- inversion Hb as [|? ? (g & Hg & Hne) _]; subst.
           apply Hash_eqb_eq in Hh. congruence.
      * split.
        -- intros H.
           destruct (find_table_function tes tree_hash_)
             as [[[i g]|]|e|c'] eqn:Hfind; try discriminate.
           injection H as ->.
           destruct (proj1 (IH c) eq_refl)
             as (-> & before & t & after & -> & Ht & Hb).
           split; [reflexivity|].
           exists (te :: before), t, after. repeat split; try assumption.
           constructor; [|exact Hb].
           exists f. split; [exact Hf | now apply Hash_eqb_neq].
        -- intros (-> & before & t & after & H & Ht & Hb).
           destruct before as [|b before]; simpl in H; injection H as -> ->;
             [congruence|].
           inversion Hb as [|? ? _ Hrest]; subst.
           assert (Hc : find_table_function (before ++ t :: after)%list
                                            tree_hash_
                        = Crash NullDereference).
           { apply IH. split; [reflexivity|]. now exists before, t, after. }
           now rewrite Hc.
    + split.
      * intros [= <-]. split; [reflexivity|].
        exists [], te, tes. repeat split; [exact Hf | constructor].
      * now intros (-> & _).
Qed.

End TableFunctionScan.

(* ================================================================== *)
(** * Row requests around a pull *)

Section AroundAPull.

Context {E : Externals}.

(** X18.  A drained reader that stays in place makes every row request
    pull: as long as the network answers with the empty reply, [n] row
    requests answer with [n] empty chunks, begin [n] exchanges, and leave
    the source as it was. *)
Theorem row_requests_on_a_drained_reader_keep_pulling (n : nat) :
  forall (this : StorageS3SequentialSource) (w : World)
         (r : StorageS3Source),
    inner this = Some r ->
    src_pending r = [] ->
    (forall i, i < n ->
       exists p, network (connections this) (exchanges w + i) = Received p /\
                 next_task p = EmptyString) ->
    assert_passes ->
    fst (row_requests n (this, w)) = repeat (Ok empty_Chunk) n /\
    fst (snd (row_requests n (this, w))) = this /\
    exchanges (snd (snd (row_requests n (this, w)))) = exchanges w + n.
Proof.
  induction n as [|n IH]; intros this w r Hr Hd Hnet Ha.
  - cbn. repeat split. lia.
  - destruct (Hnet 0) as (p & Hp & He); [lia|].
    rewrite Nat.add_0_r in Hp.
    cbn [row_requests].
    rewrite (generate_after_empty_reply this w Hr Hd Hp He Ha).
    destruct (IH this (after_pull this w p) r Hr Hd) as (Hrows & Hthis & Hx);
      [|exact Ha|].
    + intros i Hi. destruct (Hnet (S i)) as (q & Hq & Hqe); [lia|].
      exists q. split; [|exact Hqe].
      cbn [exchanges after_pull]. now rewrite Nat.add_succ_r in Hq.
    + destruct (row_requests n (this, after_pull this w p)) as [rs st'].
      cbn [fst snd] in *. rewrite Hrows, Hthis, Hx.
      cbn [repeat exchanges after_pull]. repeat split. lia.
Qed.

(** X19.  One key, one pull, all its batches: on a drained reader, when
    the pull brings a key that names an object with batches, the row
    requests answer with the batches of that object in order, the first
    by the request that pulled; these requests begin one exchange in all,
    and the reader in place at the end is the drained reader of that
    key. *)
Theorem row_requests_deliver_the_next_key
        (this : StorageS3SequentialSource) (w : World)
        (r : StorageS3Source) (p : Packet) :
  inner this = Some r ->
  src_pending r = [] ->
  network (connections this) (exchanges w) = Received p ->
  readable_key (next_task p) ->
  assert_passes ->
  fst (row_requests (length (batches_of_key (next_task p))) (this, w))
  = map Ok (batches_of_key (next_task p)) /\
  exchanges
    (snd (snd (row_requests (length (batches_of_key (next_task p)))
                            (this, w))))
  = S (exchanges w) /\
  exists u,
    S3_URI_of (next_task p) = inr u /\
    inner (fst (snd (row_requests (length (batches_of_key (next_task p)))
                                  (this, w))))
    = Some (set_pending (fresh_reader this u) []).
Proof.
  intros Hr Hd Hnet (Hne & (u & Hu) & Hsome & Hall) Ha.
  pose proof (generate_after_new_key this w Hr Hd Hnet Hne Hu Ha) as Hg.
  rewrite (batches_of_key_uri _ Hu) in *.
  destruct (object_chunks (uri_bucket u) (uri_key u)) as [|c cs];
    [contradiction|].
  inversion Hall as [|? ? Hc Hcs]; subst.
  cbn [hd tl] in Hg. cbn [length row_requests]. rewrite Hg.
  pose proof (@row_requests_deliver_pending _
                (set_inner this (Some (set_pending (fresh_reader this u) cs)))
                (after_pull this w p)
                (set_pending (fresh_reader this u) cs) eq_refl Hcs)
    as Hdeliver.
  cbn [src_pending set_pending] in Hdeliver. rewrite Hdeliver.
  cbn [fst snd map]. repeat split. exists u. now split.
Qed.

(** X20.  A key that is no S3 URI makes the row request that pulled it
    throw what the URI parser throws; the pull is spent and the drained
    reader stays in place. *)
Theorem generate_throws_on_a_key_that_is_no_uri
        (this : StorageS3SequentialSource) (w : World)
        (r : StorageS3Source) (p : Packet) (e : Exception) :
  inner this = Some r ->
  src_pending r = [] ->
  network (connections this) (exchanges w) = Received p ->
  next_task p <> EmptyString ->
  S3_URI_of (next_task p) = inl e ->
  assert_passes ->
  generate (this, w) = (Throw e, (this, after_pull this w p)) /\
  exchanges (after_pull this w p) = S (exchanges w).
Proof.
  intros Hr Hd Hnet Hne Hu Ha. split; [|reflexivity].
  rewrite (generate_reader_exhausted this w Hr);
    rewrite (StorageS3Source_generate_drained r Hd); [|reflexivity].
  cbn [fst snd]. rewrite <- Hr, set_inner_same.
  now rewrite (createOrUpdateInnerSource_bad_uri this w Hnet Hne Hu Ha).
Qed.

(** X21.  The column check of the initiator comes after the fan-out: when
    everything before it went through and the check throws, [read] throws
    what the check throws, and the connections of the fan-out are in the
    storage all the same. *)
Theorem failed_column_check_leaves_the_connections
        (column_names : list string) (metadata_snapshot : StorageMetadata)
        (query : ASTSelectQuery) (ctx : Context)
        (processed_stage : QueryProcessingStage) (max_block_size_ : Z)
        (this : StorageS3Distributed) (w : World)
        (i : nat) (f rewritten : IAST) (header_ : Block) (e : Exception) :
  getCurrentQueryId ctx = getInitialQueryId ctx ->
  find_hash_of_address (getShardsAddresses this) (getTCPPort ctx)
  <> EmptyString ->
  find_table_function (tables query) (tree_hash this) = Ok (Some (i, f)) ->
  overwrite_bucket f
    (find_hash_of_address (getShardsAddresses this) (getTCPPort ctx))
  = Ok rewritten ->
  getSampleBlock (rewritten_query query i rewritten) ctx processed_stage
  = inr header_ ->
  metadata_check column_names = Some e ->
  read column_names metadata_snapshot query ctx processed_stage
       max_block_size_ (this, w)
  = (Throw e,
     (with_fan_out_connections this ctx, record_event (EvDumpTree f) w)).
Proof.
  intros Hinit Hne Hfind Ho Hheader Hcheck.
  rewrite read_on_initiator by exact Hinit.
  rewrite read_initiator_cases. cbv zeta.
  apply String.eqb_neq in Hne.
  now rewrite Hne, Hfind, Ho, Hheader, Hcheck.
Qed.

End AroundAPull.

(* ================================================================== *)
(** * The further properties on the example cluster *)

Module ExtraWitnesses.

Import Example ExampleSource ExampleNetworks ExampleTopologies ExampleRuns
       ExampleExtras.

Lemma generate_never_dereferences_null_witness :
  fst (@generate E_one_key (source (Some drained_reader), World_init))
  <> Crash AssertionFailed.
Proof.
  apply (proj2 (@generate_never_dereferences_null E_one_key
                  (source (Some drained_reader), World_init))).
  left. reflexivity.
Defined.

Lemma row_requests_deliver_the_reader_witness :
  fst (@row_requests E_one_key 2 (source (Some full_reader), World_init))
  = [Ok (mkChunk [["3"]] 1); Ok (mkChunk [["4"]] 1)].
Proof.
  apply (@row_requests_deliver_the_reader E_one_key
           (source (Some full_reader)) World_init full_reader eq_refl).
  repeat constructor.
Defined.

Lemma worker_delivers_every_key_in_order_witness :
  exists source w1 st',
    @StorageS3SequentialSource_new E_two_keys "q1" (node "b" 123 true)
      (mkCliBuilder "AKIA" "SECRET" 10) builder World_init
    = (Ok source, w1) /\
    @row_requests E_two_keys 4 (source, w1)
    = ([Ok (mkChunk [["1"; "2"]] 2); Ok (mkChunk [["3"]] 1);
        Ok (mkChunk [["4"]] 1); Ok empty_Chunk],
       st') /\
    exchanges (snd st') = 3.
Proof.
  apply (@worker_delivers_every_key_in_order E_two_keys
           ["s3://bucket/k1"; "s3://bucket/k2"] "q1" (node "b" 123 true)
           (mkCliBuilder "AKIA" "SECRET" 10) builder World_init).
  - split.
    + intros [|[|i]] Hi; [eexists; split; reflexivity ..|simpl in Hi; lia].
    + eexists. split; reflexivity.
  - repeat constructor; try discriminate; try (eexists; reflexivity).
  - right. discriminate.
Defined.

Lemma empty_object_answers_with_the_empty_chunk_witness :
  fst (@generate E_empty_object (source (Some drained_reader), World_init))
  = Ok empty_Chunk /\
  @network E_empty_object pool 1
  = Received (mkPacket 13 "s3://bucket/k1").
Proof.
  split; [|reflexivity].
  destruct (@empty_object_answers_with_the_empty_chunk E_empty_object
              (source (Some drained_reader)) World_init drained_reader
              (mkPacket 13 "s3://bucket/k0") uri_k0
              eq_refl eq_refl eq_refl ltac:(discriminate) eq_refl eq_refl
              (or_introl eq_refl)) as [H _].
  now rewrite H.
Defined.

Lemma find_initiator_last_shard_wins_witness :
  @find_initiator E_one_key ambiguous_shards "H123" = node "b" 123 true.
Proof.
  apply (@find_initiator_last_shard_wins E_one_key
           [[node "a" 123 false]] [] [node "b" 123 true] (node "b" 123 true)
           "H123"); reflexivity.
Defined.

Lemma find_hash_of_address_last_shard_wins_witness :
  @find_hash_of_address E_one_key twin_shards 123
  = @getHash E_one_key (node "b" 123 true).
Proof.
  apply (@find_hash_of_address_last_shard_wins E_one_key
           [[node "a" 123 true]] [] [node "b" 123 true] (node "b" 123 true)
           123); reflexivity.
Defined.

Lemma overwrite_bucket_last_write_wins_witness :
  overwrite_bucket (s3Distributed "H1") "H2"
  = overwrite_bucket (s3Distributed "real-bucket") "H2".
Proof.
  apply (@overwrite_bucket_last_write_wins (s3Distributed "real-bucket")
           (s3Distributed "H1") "H1" "H2" eq_refl).
Defined.

Lemma find_initiator_without_match_witness :
  @find_initiator E_one_key plain_shards "H999" = default_Address.
Proof.
  apply (@find_initiator_without_match E_one_key plain_shards "H999").
  intros n [<-|[<-|[]]]; discriminate.
Defined.

Lemma fan_out_reaches_every_node_witness :
  exists pipes,
    fst (@read E_one_key ["a"] metadata plain_query ctx_initiator Complete
           100
           (storage plain_shards (s3Distributed "real-bucket") EmptyString,
            World_init))
    = Ok (Pipe_united pipes) /\
    map (fun s => conn_host (stream_connection s)) pipes = ["a"; "b"].
Proof.
  assert (H : exists pipe this' w',
             @read E_one_key ["a"] metadata plain_query ctx_initiator
               Complete 100
               (storage plain_shards (s3Distributed "real-bucket")
                        EmptyString,
                World_init)
             = (Ok pipe, (this', w')))
    by (do 3 eexists; vm_compute; reflexivity).
  destruct H as (pipe & this' & w' & H).
  destruct (@fan_out_reaches_every_node E_one_key ["a"] metadata plain_query
              ctx_initiator Complete 100 _ this' World_init w' pipe eq_refl H)
    as (pipes & q & h & -> & Hmap & _).
  exists pipes. rewrite H. split; [reflexivity|].
  rewrite <- (map_map stream_connection conn_host), Hmap. reflexivity.
Defined.

Lemma connections_accumulate_over_reads_witness :
  exists pipe1 st1 pipe2 st2,
    @read E_one_key ["a"] metadata plain_query ctx_initiator Complete 100
      (storage plain_shards (s3Distributed "real-bucket") EmptyString,
       World_init)
    = (Ok pipe1, st1) /\
    @read E_one_key ["a"] metadata plain_query ctx_initiator Complete 100 st1
    = (Ok pipe2, st2) /\
    length (storage_connections (fst st2)) = 4.
Proof.
  assert (H : exists pipe1 st1 pipe2 st2,
             @read E_one_key ["a"] metadata plain_query ctx_initiator
               Complete 100
               (storage plain_shards (s3Distributed "real-bucket")
                        EmptyString,
                World_init)
             = (Ok pipe1, st1) /\
             @read E_one_key ["a"] metadata plain_query ctx_initiator
               Complete 100 st1
             = (Ok pipe2, st2))
    by (do 4 eexists; split; vm_compute; reflexivity).
  destruct H as (pipe1 & st1 & pipe2 & st2 & H1 & H2).
  exists pipe1, st1, pipe2, st2. split; [exact H1|]. split; [exact H2|].
  rewrite (@connections_accumulate_over_reads E_one_key ["a"] ["a"]
             metadata metadata plain_query plain_query ctx_initiator
             ctx_initiator Complete Complete 100 100
             (storage plain_shards (s3Distributed "real-bucket") EmptyString)
             World_init pipe1 pipe2 st1 st2 eq_refl eq_refl H1 H2).
  reflexivity.
Defined.

Lemma read_on_initiator_adds_all_connections_or_none_witness :
  exchanges
    (snd (snd (@read E_one_key ["a"] metadata plain_query ctx_initiator
                 Complete 100
                 (storage plain_shards (s3Distributed "real-bucket")
                          EmptyString,
                  World_init))))
  = 0.
Proof.
  apply (@read_on_initiator_adds_all_connections_or_none E_one_key ["a"]
           metadata plain_query ctx_initiator Complete 100
           (storage plain_shards (s3Distributed "real-bucket") EmptyString)
           World_init eq_refl).
Defined.

Lemma read_on_worker_builds_the_source_witness :
  exists source w',
    @read_secondary E_one_key
      (storage plain_shards (s3Distributed "real-bucket") "H123")
      ["a"; "_path"] metadata ctx_worker 100 World_init
    = (Ok (Pipe_of_source source), w') /\
    header source = ["a"; "_path"] /\
    pool_host (connections source) = "b".
Proof.
  assert (H : exists source w',
             @read_secondary E_one_key
               (storage plain_shards (s3Distributed "real-bucket") "H123")
               ["a"; "_path"] metadata ctx_worker 100 World_init
             = (Ok (Pipe_of_source source), w'))
    by (do 2 eexists; vm_compute; reflexivity).
  destruct H as (source & w' & H). exists source, w'. split; [exact H|].
  destruct (@read_on_worker_builds_the_source E_one_key _ _ _ _ _ _ _ _ H)
    as ([Hp _] & [Hf _] & Hh & _ & _ & Hc & _).
  rewrite Hh, Hc. split; [|reflexivity].
  destruct (need_path (s3_source_builder source)) eqn:Hnp.
  - destruct (need_file (s3_source_builder source)) eqn:Hnf; [|reflexivity].
    destruct (Hf eq_refl) as [Hin|[Hin|[]]]; discriminate.
  - assert (Hn : need_path (s3_source_builder source) = true)
      by (apply (proj2 (proj1 (@read_on_worker_builds_the_source E_one_key
                                 _ _ _ _ _ _ _ _ H)));
          right; left; reflexivity).
    congruence.
Defined.

Lemma read_on_worker_returns_iff_first_pull_answered_witness :
  exists pipe st',
    @read E_one_key ["a"] metadata plain_query ctx_worker Complete 100
      (storage plain_shards (s3Distributed "real-bucket") "H123",
       World_init)
    = (Ok pipe, st').
Proof.
  apply (@read_on_worker_returns_iff_first_pull_answered E_one_key ["a"]
           metadata plain_query ctx_worker Complete 100
           (storage plain_shards (s3Distributed "real-bucket") "H123")
           World_init).
  - discriminate.
  - left. reflexivity.
  - eexists. split; [reflexivity|]. right. eexists. reflexivity.
Defined.

Lemma row_requests_on_a_drained_reader_keep_pulling_witness :
  fst (@row_requests E_no_keys 3 (source (Some drained_reader), World_init))
  = [Ok empty_Chunk; Ok empty_Chunk; Ok empty_Chunk] /\
  exchanges
    (snd (snd (@row_requests E_no_keys 3
                 (source (Some drained_reader), World_init))))
  = 3.
Proof.
  destruct (@row_requests_on_a_drained_reader_keep_pulling E_no_keys 3
              (source (Some drained_reader)) World_init drained_reader
              eq_refl eq_refl) as (Hrows & _ & Hx).
  - intros i _. eexists. split; [reflexivity|].
    cbn. now destruct i.
  - left. reflexivity.
  - split; [exact Hrows | exact Hx].
Defined.

Lemma row_requests_deliver_the_next_key_witness :
  fst (@row_requests ExampleEdges.E_k2 2
         (source (Some drained_reader), World_init))
  = [Ok (mkChunk [["3"]] 1); Ok (mkChunk [["4"]] 1)].
Proof.
  apply (@row_requests_deliver_the_next_key ExampleEdges.E_k2
           (source (Some drained_reader)) World_init drained_reader
           (mkPacket 13 "s3://bucket/k2") eq_refl eq_refl eq_refl).
  - split; [discriminate|]. split; [eexists; reflexivity|].
    split; [discriminate|]. repeat constructor.
  - left. reflexivity.
Defined.

Lemma generate_throws_on_a_key_that_is_no_uri_witness :
  fst (@generate ExampleEdges.E_bad_key
         (source (Some drained_reader), World_init))
  = Throw (DBException "Bad URI" BAD_ARGUMENTS).
Proof.
  destruct (@generate_throws_on_a_key_that_is_no_uri ExampleEdges.E_bad_key
              (source (Some drained_reader)) World_init drained_reader
              (mkPacket 13 "not-a-uri") (DBException "Bad URI" BAD_ARGUMENTS)
              eq_refl eq_refl eq_refl ltac:(discriminate) eq_refl
              (or_introl eq_refl)) as [H _].
  now rewrite H.
Defined.

Lemma failed_column_check_leaves_the_connections_witness :
  exists this' w',
    @read ExampleEdges.E_checked ["zz"] metadata plain_query ctx_initiator
      Complete 100
      (storage plain_shards (s3Distributed "real-bucket") EmptyString,
       World_init)
    = (Throw ExampleEdges.no_such_column, (this', w')) /\
    length (storage_connections this') = 2.
Proof.
  eexists _, _. split.
  - apply (@failed_column_check_leaves_the_connections
             ExampleEdges.E_checked ["zz"] metadata plain_query ctx_initiator
             Complete 100
             (storage plain_shards (s3Distributed "real-bucket") EmptyString)
             World_init 0 (s3Distributed "real-bucket")
             (s3Distributed "H123") ["*"] ExampleEdges.no_such_column
             eq_refl ltac:(discriminate) eq_refl eq_refl eq_refl eq_refl).
  - reflexivity.
Defined.

End ExtraWitnesses.


